(** * travel-cash-checker: the declaration check and the rate fetch of [src/App.tsx]

    The program is a single React component.  Its logic is

    - [idr]: the cash amount, parsed from the text of the amount field;
    - [rates]: the three exchange rates, parsed from the texts of the rate
      fields;
    - [check] and [results]: the evaluation of each jurisdiction (conversion
      and comparison with the declaration limit);
    - [loadRates]: the asynchronous fetch of the three rates.

    The values of the [useState] hooks are the fields of the record
    [App.State]; [check] reads them through its closure, so it takes the state
    as an argument here, and [loadRates], which calls the setters, maps the
    state before the call to the state once the call has completed.  What the
    network does during a call is an argument of [loadRates] ([App.Run]).
    Rendering is not modelled.

    JavaScript numbers are IEEE 754 binary64 values: they are Rocq's primitive
    [float], whose operations are the binary64 operations, specified by
    [SpecFloat].  The built-ins of the language that the component calls
    ([Number], [String], [Math.floor], [Math.round], [Math.max], [isNaN],
    optional chaining on a parsed body, [Promise.all]) are written out in
    module [JS] after ECMA-262.  A JavaScript string is the [string] of its
    UTF-8 bytes. *)

From Stdlib Require Import ZArith Floats Strings.String Strings.Ascii List Bool Lia.
Import ListNotations.

Local Open Scope Z_scope.

(** ** ECMAScript built-ins *)

Module JS.

(** *** Numbers *)

Definition number := float.

(** [ToBoolean] on a number: false for [+0], [-0] and [NaN]. *)
Definition truthy (x : number) : bool := negb (is_zero x || is_nan x).

(** Global [isNaN] on a number. *)
Definition isNaN (x : number) : bool := is_nan x.

(** [x || y] on numbers. *)
Definition or_else (x y : number) : number := if truthy x then x else y.

(** [x >= y]. *)
Definition geb (x y : number) : bool := (y <=? x)%float.

(** The integer a number stands for, when it is finite and integral. *)
Definition SF_to_Z (f : spec_float) : option Z :=
  match f with
  | S754_zero _ => Some 0
  | S754_finite s m e =>
      let v := cond_Zopp s (Zpos m) in
      if 0 <=? e then Some (v * 2 ^ e)
      else if Zpos m mod 2 ^ (- e) =? 0 then Some (v / 2 ^ (- e))
      else None
  | _ => None
  end.

Definition to_Z (x : number) : option Z := SF_to_Z (Prim2SF x).

(** The sign of a number that is not [NaN]: [true] for negative. *)
Definition sign_of (f : spec_float) : option bool :=
  match f with
  | S754_zero s | S754_infinity s | S754_finite s _ _ => Some s
  | S754_nan => None
  end.

(** [nearest_integer f z]: [z - 1/2 <= f < z + 1/2] for a finite [f], so [z]
    is the integer nearest to [f], the upper one at a tie. *)
Definition nearest_integer (f : spec_float) (z : Z) : Prop :=
  match f with
  | S754_zero _ => z = 0
  | S754_finite s m e =>
      let v := cond_Zopp s (Zpos m) in
      if 0 <=? e then z = v * 2 ^ e
      else (2 * z - 1) * 2 ^ (- e) <= 2 * v < (2 * z + 1) * 2 ^ (- e)
  | _ => False
  end.

(** The number nearest to an integer (round to nearest, ties to even). *)
Definition SF_of_Z (n : Z) : spec_float := binary_normalize prec emax n 0 false.

Definition of_Z (n : Z) : number := SF2Prim (SF_of_Z n).

(** The number nearest to the ratio [p / q] of two positive integers: the
    quotient is computed with at least 56 significant bits and a sticky bit
    for the remainder, then rounded once. *)
Definition SF_of_ratio (p q : Z) : spec_float :=
  let j := Z.max 0 (Z.log2 q - Z.log2 p + 56) in
  let '(d, r) := Z.div_eucl (p * 2 ^ j) q in
  binary_normalize prec emax (2 * d + (if r =? 0 then 0 else 1)) (- j - 1) false.

(** The number nearest to [m * 10 ^ e], for [0 <= m]. *)
Definition SF_of_decimal (m e : Z) : spec_float :=
  if m =? 0 then S754_zero false
  else if 0 <=? e then SF_of_Z (m * 10 ^ e)
  else SF_of_ratio m (10 ^ (- e)).

(** *** Text *)

Definition text := list ascii.

Definition code (c : ascii) : Z := Z.of_nat (nat_of_ascii c).

Definition is_digit (c : ascii) : bool := (48 <=? code c) && (code c <=? 57).

Definition digit_value (c : ascii) : Z := code c - 48.

(** The value of a digit of base 16 (or less), if it is one. *)
Definition hex_value (c : ascii) : option Z :=
  let n := code c in
  if (48 <=? n) && (n <=? 57) then Some (n - 48)
  else if (97 <=? n) && (n <=? 102) then Some (n - 87)
  else if (65 <=? n) && (n <=? 70) then Some (n - 55)
  else None.

(** [s.replace(/\D/g, '')]: every character that is not one of [0-9] is
    removed.  The bytes of a character outside ASCII are all above 127, so
    removing bytes removes the same characters. *)
Definition strip_non_digits (s : text) : text := filter is_digit s.

(** The decimal value of a sequence of digits, most significant first. *)
Definition decimal_value (ds : text) : Z :=
  fold_left (fun acc c => 10 * acc + digit_value c) ds 0.

(** [WhiteSpace] and [LineTerminator] of ECMA-262, as UTF-8: TAB, LF, VT, FF,
    CR, SP, U+00A0, U+1680, U+2000 to U+200A, U+2028, U+2029, U+202F, U+205F,
    U+3000, U+FEFF. *)
Definition white_space : list text :=
  map (map ascii_of_nat)
    [ [9]; [10]; [11]; [12]; [13]; [32]; [194; 160]; [225; 154; 128];
      [226; 128; 128]; [226; 128; 129]; [226; 128; 130]; [226; 128; 131];
      [226; 128; 132]; [226; 128; 133]; [226; 128; 134]; [226; 128; 135];
      [226; 128; 136]; [226; 128; 137]; [226; 128; 138]; [226; 128; 168];
      [226; 128; 169]; [226; 128; 175]; [226; 129; 159]; [227; 128; 128];
      [239; 187; 191] ]%nat.

(** [strip_prefix p l]: what follows [p] in [l], when [l] starts with [p]. *)
Fixpoint strip_prefix (p l : text) : option text :=
  match p, l with
  | [], _ => Some l
  | a :: p', b :: l' => if Ascii.eqb a b then strip_prefix p' l' else None
  | _ :: _, [] => None
  end.

Fixpoint strip_any (toks : list text) (l : text) : option text :=
  match toks with
  | [] => None
  | t :: toks' =>
      match strip_prefix t l with
      | Some r => Some r
      | None => strip_any toks' l
      end
  end.

Fixpoint skip_tokens (fuel : nat) (toks : list text) (l : text) : text :=
  match fuel with
  | O => l
  | S fuel' =>
      match strip_any toks l with
      | Some r => skip_tokens fuel' toks r
      | None => l
      end
  end.

(** White space removed at both ends. *)
Definition trim (l : text) : text :=
  let l1 := skip_tokens (length l) white_space l in
  rev (skip_tokens (length l1) (map (@rev ascii) white_space) (rev l1)).

(** The longest prefix of characters satisfying [f], and the rest. *)
Fixpoint span (f : ascii -> bool) (l : text) : text * text :=
  match l with
  | [] => ([], [])
  | c :: l' =>
      if f c then let '(a, b) := span f l' in (c :: a, b) else ([], l)
  end.

(** An optional sign: [true] for [-]. *)
Definition take_sign (l : text) : bool * text :=
  match l with
  | "-"%char :: l' => (true, l')
  | "+"%char :: l' => (false, l')
  | _ => (false, l)
  end.

(** [ExponentPart], or nothing: the decimal exponent when what is left of
    the literal is well formed. *)
Definition exponent_part (l : text) : option Z :=
  match l with
  | [] => Some 0
  | c :: l' =>
      if Ascii.eqb c "e" || Ascii.eqb c "E" then
        let '(neg, l2) := take_sign l' in
        match span is_digit l2 with
        | ((_ :: _) as ds, []) => Some (cond_Zopp neg (decimal_value ds))
        | _ => None
        end
      else None
  end.

(** [StrUnsignedDecimalLiteral] without [Infinity]: mantissa and decimal
    exponent. *)
Definition unsigned_decimal (l : text) : option (Z * Z) :=
  let '(ip, l1) := span is_digit l in
  let '(fp, l2) :=
    match l1 with
    | "."%char :: l1' => span is_digit l1'
    | _ => ([], l1)
    end in
  match ip, fp with
  | [], [] => None
  | _, _ =>
      match exponent_part l2 with
      | Some e => Some (decimal_value (ip ++ fp), e - Z.of_nat (length fp))
      | None => None
      end
  end.

Definition Infinity_text : text := list_ascii_of_string "Infinity".

(** [StrDecimalLiteral]. *)
Definition decimal_literal (l : text) : option spec_float :=
  let '(neg, l1) := take_sign l in
  let signed (f : spec_float) := if neg then SFopp f else f in
  match strip_prefix Infinity_text l1 with
  | Some [] => Some (signed (S754_infinity false))
  | _ =>
      match unsigned_decimal l1 with
      | Some (m, e) => Some (signed (SF_of_decimal m e))
      | None => None
      end
  end.

(** The value of a non-empty sequence of digits of base [b]. *)
Fixpoint radix_value (b : Z) (acc : Z) (l : text) : option Z :=
  match l with
  | [] => Some acc
  | c :: l' =>
      match hex_value c with
      | Some d => if d <? b then radix_value b (b * acc + d) l' else None
      | None => None
      end
  end.

(** [NonDecimalIntegerLiteral]: [0x], [0o] and [0b] literals, unsigned. *)
Definition non_decimal_literal (l : text) : option spec_float :=
  match l with
  | "0"%char :: c :: ((_ :: _) as ds) =>
      let b :=
        if Ascii.eqb c "x" || Ascii.eqb c "X" then Some 16
        else if Ascii.eqb c "o" || Ascii.eqb c "O" then Some 8
        else if Ascii.eqb c "b" || Ascii.eqb c "B" then Some 2
        else None in
      match b with
      | Some b =>
          match radix_value b 0 ds with
          | Some n => Some (SF_of_Z n)
          | None => None
          end
      | None => None
      end
  | _ => None
  end.

(** [StringToNumber]: the empty or blank text is [+0], a numeric literal is
    its value rounded to the nearest number, anything else is [NaN]. *)
Definition StringToNumber (l : text) : number :=
  match trim l with
  | [] => 0%float
  | t =>
      match non_decimal_literal t with
      | Some f => SF2Prim f
      | None =>
          match decimal_literal t with
          | Some f => SF2Prim f
          | None => nan
          end
      end
  end.

(** [Number(s)] for a string [s]. *)
Definition Number (s : string) : number :=
  StringToNumber (list_ascii_of_string s).

(** [s.replace(/\D/g, '')] on a string. *)
Definition replace_non_digits (s : string) : string :=
  string_of_list_ascii (strip_non_digits (list_ascii_of_string s)).

(** *** [Math] *)

(** [Math.floor]: integral numbers, zeros, infinities and [NaN] are
    returned as they are; a number with a fractional part has a mantissa
    below [2^53], and its floor is computed exactly. *)
Definition Math_floor (x : number) : number :=
  match Prim2SF x with
  | S754_finite s m e =>
      if 0 <=? e then x
      else
        let n := Z.shiftl (cond_Zopp s (Zpos m)) e in
        if n =? 0 then 0%float else of_Z n
  | _ => x
  end.

(** [Math.round]: the nearest integer, a tie going towards [+Infinity]; a
    result of zero keeps the sign of the argument. *)
Definition Math_round (x : number) : number :=
  match Prim2SF x with
  | S754_finite s m e =>
      if 0 <=? e then x
      else
        let n := Z.shiftl (cond_Zopp s (Zpos m) + 2 ^ (- e - 1)) e in
        if n =? 0 then (if s then (-0)%float else 0%float) else of_Z n
  | _ => x
  end.

(** [Math.max] of two numbers: [NaN] if either is, and [+0] above [-0]. *)
Definition Math_max (a b : number) : number :=
  if is_nan a || is_nan b then nan
  else if (a <? b)%float then b
  else if (b <? a)%float then a
  else if get_sign a then b else a.

(** *** [Number::toString] *)

Definition digit_char (d : Z) : ascii := ascii_of_nat (Z.to_nat (48 + d)).

Fixpoint digits_loop (fuel : nat) (n : Z) (acc : text) : text :=
  match fuel with
  | O => acc
  | S fuel' =>
      let acc' := digit_char (n mod 10) :: acc in
      if n / 10 =? 0 then acc' else digits_loop fuel' (n / 10) acc'
  end.

(** The decimal digits of a non-negative integer. *)
Definition decimal_digits (n : Z) : text :=
  digits_loop (S (Z.to_nat (Z.log2 n))) n [].

(** The decimal exponent [n] of a positive ratio: [10^(n-1) <= p/q < 10^n]. *)
Fixpoint scale_up (fuel : nat) (p q : Z) (t : Z) : Z :=
  match fuel with
  | O => t
  | S fuel' => if q <=? p then t else scale_up fuel' (10 * p) q (t - 1)
  end.

Definition decimal_exponent (p q : Z) : Z :=
  if q <=? p then Z.of_nat (length (decimal_digits (p / q)))
  else scale_up 400 (10 * p) q 0.

(** The candidates with [k] digits for a positive number [p/q] of decimal
    exponent [n]: [s] below and [s + 1] above [p/q * 10^(k-n)], each kept
    when [s * 10^(n-k)] rounds to the number [f]; the nearer one first. *)
Definition candidate (f : spec_float) (p q n k : Z) : option Z :=
  let '(a, b) := if n <=? k then (p * 10 ^ (k - n), q) else (p, q * 10 ^ (n - k)) in
  let '(s, r) := Z.div_eucl a b in
  let ok (c : Z) :=
    match f, SF_of_decimal c (n - k) with
    | S754_finite _ m e, S754_finite _ m' e' => Pos.eqb m m' && (e =? e')
    | _, _ => false
    end in
  let low_first := (2 * r <? b) || ((2 * r =? b) && Z.even s) in
  match ok s, ok (s + 1) with
  | true, true => Some (if low_first then s else s + 1)
  | true, false => Some s
  | false, true => Some (s + 1)
  | false, false => None
  end.

(** The shortest digits: [k] from 1 upwards. *)
Fixpoint shortest (fuel : nat) (f : spec_float) (p q n k : Z) : Z * Z :=
  match fuel with
  | O => (fst (Z.div_eucl (if n <=? k then p * 10 ^ (k - n) else p) (if n <=? k then q else q * 10 ^ (n - k))), k)
  | S fuel' =>
      match candidate f p q n k with
      | Some s => (s, k)
      | None => shortest fuel' f p q n (k + 1)
      end
  end.

Definition zeros (n : Z) : text := repeat "0"%char (Z.to_nat n).

(** The text of a positive finite number [m * 2^e]. *)
Definition positive_to_text (m : positive) (e : Z) : text :=
  let '(p, q) := if 0 <=? e then (Zpos m * 2 ^ e, 1) else (Zpos m, 2 ^ (- e)) in
  let n0 := decimal_exponent p q in
  let '(s0, k) := shortest 17 (S754_finite false m e) p q n0 1 in
  (* ten to the k is written with the digit 1 and a larger exponent *)
  let '(s, n) := if s0 =? 10 ^ k then (10 ^ (k - 1), n0 + 1) else (s0, n0) in
  let ds := decimal_digits s in
  if (k <=? n) && (n <=? 21) then ds ++ zeros (n - k)
  else if (0 <? n) && (n <=? 21) then
    firstn (Z.to_nat n) ds ++ "."%char :: skipn (Z.to_nat n) ds
  else if (-6 <? n) && (n <=? 0) then
    "0"%char :: "."%char :: zeros (- n) ++ ds
  else
    let ex := (if n - 1 <? 0 then "-"%char else "+"%char) :: decimal_digits (Z.abs (n - 1)) in
    match ds with
    | [d] => d :: "e"%char :: ex
    | d :: ds' => d :: "."%char :: ds' ++ "e"%char :: ex
    | [] => []
    end.

(** [String(x)] for a number [x]. *)
Definition String_ (x : number) : string :=
  string_of_list_ascii
    match Prim2SF x with
    | S754_nan => list_ascii_of_string "NaN"
    | S754_zero _ => ["0"%char]
    | S754_infinity s =>
        (if s then ["-"%char] else []) ++ Infinity_text
    | S754_finite s m e =>
        (if s then ["-"%char] else []) ++ positive_to_text m e
    end.

(** *** Values read from a response *)

#[local] Set Warnings "-register-all".

(** What [JSON.parse] produces.  The members of an object are listed in the
    order of the source text. *)
Inductive JSON : Type :=
| JNull
| JBool (b : bool)
| JNumber (x : number)
| JString (s : string)
| JArray (items : list JSON)
| JObject (members : list (string * JSON)).

#[local] Set Warnings "+register-all".

(** The member of the given name: of two members of the same name the later
    one is the property of the parsed object. *)
Fixpoint member (key : string) (members : list (string * JSON)) : option JSON :=
  match members with
  | [] => None
  | (k, v) :: members' =>
      match member key members' with
      | Some v' => Some v'
      | None => if String.eqb k key then Some v else None
      end
  end.

(** [v?.key], where [None] is [undefined]: [undefined] and [null] give
    [undefined], an object gives its property, and no other value has a
    property named [rates] or [IDR]. *)
Definition get (v : option JSON) (key : string) : option JSON :=
  match v with
  | Some (JObject members) => member key members
  | _ => None
  end.

(** *** Exceptions and promises *)

(** A thrown value [e], as far as [e?.message] tells: [None] when [e] has
    no [message]. *)
Record Thrown : Type := { message : option string }.

Inductive Settled (A : Type) : Type :=
| Fulfilled (a : A)
| Rejected (e : Thrown).

Arguments Fulfilled {A} a.
Arguments Rejected {A} e.

(** A promise that settles: when, and how. *)
Record Promise (A : Type) : Type :=
  { settled_at : nat; outcome : Settled A }.

Arguments settled_at {A} p.
Arguments outcome {A} p.

(** The rejection that happens first, if any does: [(time, reason)]. *)
Fixpoint first_rejection {A : Type} (ps : list (Promise A)) : option (nat * Thrown) :=
  match ps with
  | [] => None
  | p :: ps' =>
      match outcome p, first_rejection ps' with
      | Rejected e, Some (t', e') =>
          if (settled_at p <=? t')%nat then Some (settled_at p, e) else Some (t', e')
      | Rejected e, None => Some (settled_at p, e)
      | Fulfilled _, r => r
      end
  end.

Fixpoint values {A : Type} (ps : list (Promise A)) : list A :=
  match ps with
  | [] => []
  | p :: ps' =>
      match outcome p with
      | Fulfilled a => a :: values ps'
      | Rejected _ => values ps'
      end
  end.

(** [await Promise.all(ps)]: the values in the order of [ps] when every
    promise is fulfilled, and otherwise the reason of the promise that is
    rejected first. *)
Definition Promise_all {A : Type} (ps : list (Promise A)) : Settled (list A) :=
  match first_rejection ps with
  | Some (_, e) => Rejected e
  | None => Fulfilled (values ps)
  end.

End JS.

(** ** The component [App] *)

Module App.
Import JS.

Inductive Currency : Type := SGD | AED | EUR.

Inductive Country : Type := SG | AE | EU.

Record Limit : Type :=
  { label : string; currency : Currency; amount : number }.

Definition LIMITS (k : Country) : Limit :=
  match k with
  | SG => {| label := "Singapur"; currency := SGD; amount := 20000%float |}
  | AE => {| label := "VAE (Abu Dhabi)"; currency := AED; amount := 60000%float |}
  | EU => {| label := "EU/Österreich"; currency := EUR; amount := 10000%float |}
  end.

(** A [Date], as milliseconds since the epoch. *)
Definition Date := Z.

(** The state of the component: one field per [useState]. *)
Record State : Type :=
  { amountIDR : string;
    idrPerSGD : string;
    idrPerAED : string;
    idrPerEUR : string;
    showAll : bool;
    activeTab : Country;
    autoRates : bool;
    fetching : bool;
    fetchError : option string;
    lastFetchedAt : option Date }.

Definition initial : State :=
  {| amountIDR := ""; idrPerSGD := ""; idrPerAED := ""; idrPerEUR := "";
     showAll := true; activeTab := SG; autoRates := true; fetching := false;
     fetchError := None; lastFetchedAt := None |}.

(** The text of the rate field of a currency. *)
Definition rate_text (st : State) (c : Currency) : string :=
  match c with
  | SGD => idrPerSGD st
  | AED => idrPerAED st
  | EUR => idrPerEUR st
  end.

(** [rates]: [Number(text) || NaN] for each currency. *)
Definition rates (st : State) (c : Currency) : number :=
  or_else (Number (rate_text st c)) nan.

(** [idr = Number(String(amountIDR).replace(/\D/g, ''))]. *)
Definition idr (st : State) : number :=
  Number (replace_non_digits (amountIDR st)).

Record Result : Type :=
  { converted : number; needsDecl : bool; maxBeforeDeclIDR : number }.

(** [check(limitCurrency, limitAmount)]; [None] is [null]. *)
Definition check (st : State) (limitCurrency : Currency) (limitAmount : number)
  : option Result :=
  let rate := rates st limitCurrency in
  if negb (truthy rate) || isNaN rate || negb (truthy (idr st)) then None
  else
    let converted := (idr st / rate)%float in
    let needsDecl := geb converted limitAmount in
    let maxBeforeDeclIDR := Math_max 0%float (Math_floor (limitAmount * rate)%float) in
    Some {| converted := converted; needsDecl := needsDecl;
            maxBeforeDeclIDR := maxBeforeDeclIDR |}.

(** [results]: the check of each country against its limit. *)
Definition results (st : State) (k : Country) : option Result :=
  check st (currency (LIMITS k)) (amount (LIMITS k)).

(** *** [loadRates] *)

(** A response of [fetch]: [r.json()] is a promise of the parsed body. *)
Record Response : Type := { json : Promise JSON }.

(** What the outside world does during one call of [loadRates]: the promise
    [fetch] returns for the request of each currency, and the clock when
    the rates are stored. *)
Record Run : Type :=
  { fetch : Currency -> Promise Response; now : Date }.

Definition symbols : list Currency := [SGD; AED; EUR].

(** One remote lookup, from the request to the parsed body. *)
Definition lookup (run : Run) (cur : Currency) : Settled JSON :=
  match outcome (fetch run cur) with
  | Fulfilled r => outcome (json r)
  | Rejected e => Rejected e
  end.

(** [map], an object with a number for some of the currencies. *)
Definition RateMap := Currency -> option number.

Definition empty_map : RateMap := fun _ => None.

Definition Currency_eqb (a b : Currency) : bool :=
  match a, b with
  | SGD, SGD | AED, AED | EUR, EUR => true
  | _, _ => false
  end.

Definition assign (map : RateMap) (cur : Currency) (x : number) : RateMap :=
  fun c => if Currency_eqb c cur then Some x else map c.

(** [j?.rates?.IDR], kept when [typeof idrPer === "number"]. *)
Definition idrPer (j : JSON) : option number :=
  match get (get (Some j) "rates") "IDR" with
  | Some (JNumber x) => Some x
  | _ => None
  end.

(** The [forEach] over [jsons], with [cur = symbols[i]]. *)
Definition collect (jsons : list JSON) : RateMap :=
  fold_left
    (fun map '(cur, j) =>
       match idrPer j with
       | Some x => assign map cur x
       | None => map
       end)
    (combine symbols jsons) empty_map.

(** [!map.X]. *)
Definition missing (map : RateMap) (c : Currency) : bool :=
  match map c with
  | Some x => negb (truthy x)
  | None => true
  end.

Definition incomplete_message : string := "Unvollständige Kurse".

Definition fallback_message : string := "Konnte Kurse nicht laden.".

(** [e?.message || "Konnte Kurse nicht laden."]. *)
Definition describe (e : Thrown) : string :=
  match message e with
  | Some m => if String.eqb m "" then fallback_message else m
  | None => fallback_message
  end.

(** [Math.round(map.X)], as text. *)
Definition rounded (map : RateMap) (c : Currency) : string :=
  match map c with
  | Some x => String_ (Math_round x)
  | None => String_ nan
  end.

Definition setFetching (b : bool) (st : State) : State :=
  {| amountIDR := amountIDR st; idrPerSGD := idrPerSGD st;
     idrPerAED := idrPerAED st; idrPerEUR := idrPerEUR st;
     showAll := showAll st; activeTab := activeTab st;
     autoRates := autoRates st; fetching := b;
     fetchError := fetchError st; lastFetchedAt := lastFetchedAt st |}.

Definition setFetchError (e : option string) (st : State) : State :=
  {| amountIDR := amountIDR st; idrPerSGD := idrPerSGD st;
     idrPerAED := idrPerAED st; idrPerEUR := idrPerEUR st;
     showAll := showAll st; activeTab := activeTab st;
     autoRates := autoRates st; fetching := fetching st;
     fetchError := e; lastFetchedAt := lastFetchedAt st |}.

Definition setIdrPer (c : Currency) (s : string) (st : State) : State :=
  {| amountIDR := amountIDR st;
     idrPerSGD := if Currency_eqb c SGD then s else idrPerSGD st;
     idrPerAED := if Currency_eqb c AED then s else idrPerAED st;
     idrPerEUR := if Currency_eqb c EUR then s else idrPerEUR st;
     showAll := showAll st; activeTab := activeTab st;
     autoRates := autoRates st; fetching := fetching st;
     fetchError := fetchError st; lastFetchedAt := lastFetchedAt st |}.

Definition setLastFetchedAt (d : option Date) (st : State) : State :=
  {| amountIDR := amountIDR st; idrPerSGD := idrPerSGD st;
     idrPerAED := idrPerAED st; idrPerEUR := idrPerEUR st;
     showAll := showAll st; activeTab := activeTab st;
     autoRates := autoRates st; fetching := fetching st;
     fetchError := fetchError st; lastFetchedAt := d |}.

(** The [try] block after the two [await]s, given [map]: it throws when a
    rate is missing, and stores the three rounded rates and the time
    otherwise. *)
Definition after_await (run : Run) (st : State) (map : RateMap) : Settled State :=
  if missing map SGD || missing map AED || missing map EUR then
    Rejected {| message := Some incomplete_message |}
  else
    Fulfilled
      (setLastFetchedAt (Some (now run))
         (setIdrPer EUR (rounded map EUR)
            (setIdrPer AED (rounded map AED)
               (setIdrPer SGD (rounded map SGD) st)))).

(** The body of the [try] block: the state it leaves, or what it throws. *)
Definition try_block (run : Run) (st : State) : Settled State :=
  match Promise_all (List.map (fetch run) symbols) with
  | Rejected e => Rejected e
  | Fulfilled responses =>
      match Promise_all (List.map json responses) with
      | Rejected e => Rejected e
      | Fulfilled jsons => after_await run st (collect jsons)
      end
  end.

(** [loadRates()]: the state of the component once the call has completed.
    The two setters before the [await] are applied first, the [catch]
    clause keeps what was set before the exception, and [finally] clears
    the flag. *)
Definition loadRates (run : Run) (st : State) : State :=
  let st0 := setFetchError None (setFetching true st) in
  let st1 :=
    match try_block run st0 with
    | Fulfilled st' => st'
    | Rejected e => setFetchError (Some (describe e)) st0
    end in
  setFetching false st1.

(** Whether the call stored new rates. *)
Definition succeeded (run : Run) (st : State) : bool :=
  match try_block run (setFetchError None (setFetching true st)) with
  | Fulfilled _ => true
  | Rejected _ => false
  end.

(** *** The cards *)

Definition Country_eqb (a b : Country) : bool :=
  match a, b with
  | SG, SG | AE, AE | EU, EU => true
  | _, _ => false
  end.

(** What a card shows below its heading: the request to enter the amount and
    the rate of a currency, the panel of a result (converted amount, limit in
    home currency, and the red or green notice chosen by [needsDecl]), or
    nothing (the last [null] of the conditional). *)
Inductive Content : Type :=
| Hint (c : Currency)
| Panel (r : Result)
| Nothing.

(** The card of a country in the list that the component renders: [None] when
    the function passed to [map] returns [null] for the key. *)
Definition card (st : State) (key : Country) : option Content :=
  let lim := LIMITS key in
  let res := results st key in
  let visible := showAll st || Country_eqb key (activeTab st) in
  if negb visible then None
  else
    Some (if negb (truthy (idr st)) || negb (truthy (rates st (currency lim)))
          then Hint (currency lim)
          else match res with
               | Some r => Panel r
               | None => Nothing
               end).

(** *** Inputs of the examples *)

(** The state after typing an amount and three rates. *)
Definition typed (amount sgd aed eur : string) : State :=
  {| amountIDR := amount; idrPerSGD := sgd; idrPerAED := aed; idrPerEUR := eur;
     showAll := true; activeTab := SG; autoRates := false; fetching := false;
     fetchError := None; lastFetchedAt := None |}.

(** A body as the rate service sends it, with the given member [IDR]. *)
Definition body (idr : JSON) : JSON :=
  JObject [("success"%string, JBool true);
           ("rates"%string, JObject [("IDR"%string, idr)])].

(** A request answered with the given body. *)
Definition answered (j : JSON) : Promise Response :=
  {| settled_at := 1%nat;
     outcome := Fulfilled {| json := {| settled_at := 2%nat; outcome := Fulfilled j |} |} |}.

(** A request that fails at the given time. *)
Definition failed (t : nat) (m : option string) : Promise Response :=
  {| settled_at := t; outcome := Rejected {| message := m |} |}.

Definition run_of (sgd aed eur : Promise Response) : Run :=
  {| fetch := fun c => match c with SGD => sgd | AED => aed | EUR => eur end;
     now := 1700000000000 |}.

End App.

(** * Proofs *)

(** ** The built-ins on some inputs *)

Module Examples.
Import JS.

Example Number_of_text :
  Number "" = 0%float /\ Number " 42 " = 42%float /\ Number "1e3" = 1000%float /\
  Number "0x1F" = 31%float /\ Number ".5" = (1 / 2)%float /\
  Number "-5" = (-5)%float /\ Number "-Infinity" = neg_infinity /\
  Number "1e400" = infinity /\ Number "12,5" = nan /\ Number "12 000" = nan /\
  Number "abc" = nan.
Proof. repeat split; vm_compute; reflexivity. Qed.

Example Number_after_replace :
  replace_non_digits "Rp 25.000.000,-" = "25000000"%string /\
  Number (replace_non_digits "Rp 25.000.000,-") = 25000000%float.
Proof. split; vm_compute; reflexivity. Qed.

Example String_of_number :
  String_ 15235%float = "15235"%string /\
  String_ (1 / 10)%float = "0.1"%string /\
  String_ (2 / 3)%float = "0.6666666666666666"%string /\
  String_ 1e21%float = "1e+21"%string /\ String_ (-0)%float = "0"%string /\
  String_ (-5)%float = "-5"%string /\ String_ nan = "NaN"%string.
Proof. repeat split; vm_compute; reflexivity. Qed.

Example Math_on_halves :
  Math_round 2.5%float = 3%float /\ Math_round (-2.5)%float = (-2)%float /\
  Math_round (-0.5)%float = (-0)%float /\ Math_floor (-0.5)%float = (-1)%float /\
  Math_floor 2.5%float = 2%float /\
  Math_max 0%float (-0)%float = 0%float /\ Math_max (-0)%float 0%float = 0%float /\
  Math_max 0%float (-3)%float = 0%float /\ Math_max 0%float nan = nan.
Proof. repeat split; vm_compute; reflexivity. Qed.

End Examples.

(** ** Rounding to binary64 *)

Module Binary64.

Lemma digits2_pos_size (p : positive) : digits2_pos p = Pos.size p.
Proof. induction p; simpl; congruence. Qed.

Lemma Zdigits2_log2 (m : Z) : 0 < m -> Zdigits2 m = Z.log2 m + 1.
Proof.
  destruct m as [|p|p]; try lia. intros _. simpl.
  rewrite digits2_pos_size. destruct p; simpl; lia.
Qed.

Lemma shr_1_m (mrs : shr_record) :
  0 <= shr_m mrs -> shr_m (shr_1 mrs) = shr_m mrs / 2.
Proof.
  destruct mrs as [m r s]; simpl. intros Hm.
  destruct m as [|[p|p|]|p]; simpl; try reflexivity.
  - apply Z.div_unique with 1; lia.
  - apply Z.div_unique with 0; lia.
  - lia.
Qed.

Lemma pow2_double (k : positive) : 2 ^ Zpos k~0 = 2 ^ Zpos k * 2 ^ Zpos k.
Proof. rewrite Pos2Z.inj_xO, <- Z.pow_add_r by lia. f_equal. lia. Qed.

Lemma pow2_double_succ (k : positive) : 2 ^ Zpos k~1 = 2 * (2 ^ Zpos k * 2 ^ Zpos k).
Proof.
  rewrite Pos2Z.inj_xI, Z.pow_add_r, Z.pow_1_r by lia.
  rewrite <- Pos2Z.inj_xO, pow2_double. ring.
Qed.

Lemma iter_shr_1_m (k : positive) :
  forall mrs, 0 <= shr_m mrs ->
    shr_m (iter_pos shr_1 k mrs) = shr_m mrs / 2 ^ Zpos k.
Proof.
  induction k as [k IH|k IH|]; intros mrs Hm; simpl iter_pos.
  - assert (H1 : 0 <= shr_m (shr_1 mrs)).
    { rewrite shr_1_m by assumption. apply Z.div_pos; lia. }
    assert (H2 : 0 <= shr_m (iter_pos shr_1 k (shr_1 mrs))).
    { rewrite IH by assumption. apply Z.div_pos; lia. }
    rewrite IH, IH, shr_1_m by assumption.
    rewrite !Z.div_div by lia. now rewrite pow2_double_succ, Z.mul_assoc.
  - assert (H2 : 0 <= shr_m (iter_pos shr_1 k mrs)).
    { rewrite IH by assumption. apply Z.div_pos; lia. }
    rewrite IH, IH by assumption.
    rewrite !Z.div_div by lia. now rewrite pow2_double.
  - rewrite shr_1_m by assumption. reflexivity.
Qed.

(** A right shift divides the mantissa and raises the exponent. *)
Lemma shr_spec (mrs : shr_record) (e n : Z) :
  0 <= shr_m mrs -> 0 <= n ->
  snd (shr mrs e n) = e + n /\
  shr_m (fst (shr mrs e n)) = shr_m mrs / 2 ^ n.
Proof.
  intros Hm Hn. destruct n as [|k|k]; simpl; try lia.
  - rewrite Z.div_1_r. lia.
  - split; [reflexivity | apply iter_shr_1_m; assumption].
Qed.

Lemma shr_record_of_loc_m (m : Z) (l : location) :
  shr_m (shr_record_of_loc m l) = m.
Proof. destruct l as [|[]]; reflexivity. Qed.

Lemma round_nearest_even_bounds (m : Z) (l : location) :
  m <= round_nearest_even m l <= m + 1.
Proof.
  unfold round_nearest_even. destruct l as [|[]]; try lia.
  destruct (Z.even m); lia.
Qed.

Lemma fexp_normal (d e : Z) : 53 <= d -> -1074 <= e ->
  fexp prec emax (d + e) = d + e - 53.
Proof. intros. unfold fexp, SpecFloat.emin, prec, emax. lia. Qed.

Lemma digits_bounds (m : Z) : 0 < m -> 2 ^ (Zdigits2 m - 1) <= m < 2 ^ Zdigits2 m.
Proof.
  intros Hm. rewrite Zdigits2_log2 by assumption.
  replace (Z.log2 m + 1 - 1) with (Z.log2 m) by lia.
  replace (Z.log2 m + 1) with (Z.succ (Z.log2 m)) by lia.
  apply Z.log2_spec. assumption.
Qed.

Lemma digits_unique (m d : Z) : 0 < d -> 2 ^ (d - 1) <= m < 2 ^ d -> Zdigits2 m = d.
Proof.
  intros Hd H. assert (0 < m) by (assert (0 < 2 ^ (d - 1)) by (apply Z.pow_pos_nonneg; lia); lia).
  rewrite Zdigits2_log2 by assumption.
  rewrite (Z.log2_unique m (d - 1)); try lia.
  replace (Z.succ (d - 1)) with d by lia. assumption.
Qed.

Lemma bounded_53 (m : positive) (e : Z) :
  Zdigits2 (Zpos m) = 53 -> -1074 <= e <= 971 -> bounded prec emax m e = true.
Proof.
  intros Hd He. unfold bounded, canonical_mantissa.
  simpl in Hd. rewrite Hd.
  rewrite fexp_normal by lia.
  apply andb_true_intro. split; [apply Z.eqb_eq | apply Z.leb_le]; unfold emax, prec; lia.
Qed.

(** A mantissa of 53 bits within the exponent range is kept as it is. *)
Lemma binary_round_aux_exact (s : bool) (mx : positive) (ex : Z) :
  Zdigits2 (Zpos mx) = 53 -> -1074 <= ex <= 971 ->
  binary_round_aux prec emax s (Zpos mx) ex loc_Exact = S754_finite s mx ex.
Proof.
  intros Hd He. unfold binary_round_aux, shr_fexp.
  rewrite Hd, fexp_normal by lia.
  replace (53 + ex - 53 - ex) with 0 by lia. simpl shr.
  cbn [shr_m shr_record_of_loc loc_of_shr_record round_nearest_even].
  rewrite Hd, fexp_normal by lia.
  replace (53 + ex - 53 - ex) with 0 by lia. simpl shr.
  cbn [shr_m shr_record_of_loc].
  replace (ex <=? emax - prec) with true; [reflexivity|].
  symmetry. apply Z.leb_le. unfold emax, prec. lia.
Qed.

(** A mantissa of at least 53 bits is rounded to a valid number of the same
    sign, or to infinity; the exponent does not decrease. *)
Lemma binary_round_aux_normal (s : bool) (mx : positive) (ex : Z) (lx : location) :
  53 <= Zdigits2 (Zpos mx) -> -1074 <= ex ->
  binary_round_aux prec emax s (Zpos mx) ex lx = S754_infinity s \/
  exists m e,
    binary_round_aux prec emax s (Zpos mx) ex lx = S754_finite s m e /\
    bounded prec emax m e = true /\ ex <= e.
Proof.
  intros Hd He. unfold binary_round_aux, shr_fexp.
  remember (Zdigits2 (Zpos mx)) as D eqn:HD.
  rewrite fexp_normal by lia.
  replace (D + ex - 53 - ex) with (D - 53) by lia.
  destruct (shr_spec (shr_record_of_loc (Zpos mx) lx) ex (D - 53)) as [He1 Hm1].
  { rewrite shr_record_of_loc_m. lia. }
  { lia. }
  destruct (shr (shr_record_of_loc (Zpos mx) lx) ex (D - 53)) as [mrs1 e1].
  cbn [fst snd] in He1, Hm1. rewrite shr_record_of_loc_m in Hm1.
  assert (Hb : 2 ^ 52 <= shr_m mrs1 < 2 ^ 53).
  { destruct (digits_bounds (Zpos mx)) as [Hlo Hhi]; [lia|]. rewrite <- HD in Hlo, Hhi.
    assert (Hp : 0 < 2 ^ (D - 53)) by (apply Z.pow_pos_nonneg; lia).
    rewrite Hm1. split.
    - apply Z.div_le_lower_bound; [assumption|].
      rewrite <- Z.pow_add_r by lia.
      replace (D - 53 + 52) with (D - 1) by lia. assumption.
    - apply Z.div_lt_upper_bound; [assumption|].
      rewrite <- Z.pow_add_r by lia.
      replace (D - 53 + 53) with D by lia. assumption. }
  set (m2 := round_nearest_even (shr_m mrs1) (loc_of_shr_record mrs1)).
  assert (Hm2 : 2 ^ 52 <= m2 <= 2 ^ 53).
  { pose proof (round_nearest_even_bounds (shr_m mrs1) (loc_of_shr_record mrs1)).
    fold m2 in H. lia. }
  assert (Hcase : m2 < 2 ^ 53 \/ m2 = 2 ^ 53) by lia.
  destruct Hcase as [Hlt | Heq].
  - assert (Hd2 : Zdigits2 m2 = 53) by (apply digits_unique; simpl; lia).
    rewrite Hd2, fexp_normal by lia.
    replace (53 + e1 - 53 - e1) with 0 by lia. simpl shr.
    cbn [shr_m shr_record_of_loc].
    destruct m2 as [|p|p] eqn:E; try (simpl in Hm2; lia).
    destruct (e1 <=? emax - prec) eqn:Hle; [right | left; reflexivity].
    exists p, e1. split; [reflexivity|]. split; [|lia].
    apply bounded_53; [assumption|]. apply Z.leb_le in Hle. unfold emax, prec in Hle. lia.
  - rewrite Heq.
    change (Zdigits2 (2 ^ 53)) with 54.
    rewrite fexp_normal by lia.
    replace (54 + e1 - 53 - e1) with 1 by lia.
    cbn [shr shr_record_of_loc iter_pos shr_1 shr_m Z.pow Z.pow_pos Pos.iter Z.mul Pos.mul].
    destruct (e1 + 1 <=? emax - prec) eqn:Hle; [right | left; reflexivity].
    eexists _, _. split; [reflexivity|]. split; [|lia].
    apply bounded_53; [reflexivity|]. apply Z.leb_le in Hle. unfold emax, prec in Hle. lia.
Qed.

Lemma iter_xO (p k : positive) : Zpos (Pos.iter xO p k) = Zpos p * 2 ^ Zpos k.
Proof.
  induction k as [|k IH] using Pos.peano_ind.
  - simpl. lia.
  - rewrite Pos.iter_succ, Pos2Z.inj_xO, IH, Pos2Z.inj_succ, Z.pow_succ_r by lia. ring.
Qed.

(** The mantissa of an integer, aligned to 53 bits when it has fewer. *)
Lemma shl_align_int (p : positive) :
  let d := Zdigits2 (Zpos p) in
  exists mz ez,
    shl_align p 0 (fexp prec emax (Zpos (digits2_pos p) + 0)) = (mz, ez) /\
    ez = Z.min 0 (d - 53) /\ Zpos mz = Zpos p * 2 ^ (- ez) /\
    Zdigits2 (Zpos mz) = Z.max d 53.
Proof.
  intros d. assert (Hd : 0 < d) by (unfold d; simpl; lia).
  change (Zpos (digits2_pos p)) with d.
  replace (fexp prec emax (d + 0)) with (d - 53)
    by (unfold fexp, SpecFloat.emin, prec, emax; lia).
  unfold shl_align. destruct (d - 53 - 0) as [|t|t] eqn:Ht.
  - exists p, 0. repeat split; try lia; simpl; lia.
  - exists p, 0. repeat split; try lia; simpl; lia.
  - exists (Pos.iter xO p t), (d - 53).
    assert (Hk : - (d - 53) = Zpos t) by lia.
    repeat split; try lia.
    + rewrite iter_xO, Hk. reflexivity.
    + replace (Z.max d 53) with 53 by lia.
      destruct (digits_bounds (Zpos p)) as [Hlo Hhi]; [lia|]. fold d in Hlo, Hhi.
      assert (Hp : 0 < 2 ^ Zpos t) by (apply Z.pow_pos_nonneg; lia).
      apply digits_unique; [lia|]. rewrite iter_xO. split.
      * replace (53 - 1) with ((d - 1) + Zpos t) by lia.
        rewrite Z.pow_add_r by lia. apply Z.mul_le_mono_nonneg_r; lia.
      * replace 53 with (d + Zpos t) by lia.
        rewrite Z.pow_add_r by lia. apply Z.mul_lt_mono_pos_r; lia.
Qed.

Lemma cond_Zopp_mul (s : bool) (a b : Z) : cond_Zopp s a * b = cond_Zopp s (a * b).
Proof. destruct s; simpl; ring. Qed.

(** Rounding an integer: the result is a valid number of the same sign,
    integral or infinite, and equal to the integer when it is below [2^53]. *)
Lemma binary_round_int (s : bool) (p : positive) :
  let r := binary_round prec emax s p 0 in
  valid_binary r = true /\
  (r = S754_infinity s \/
   exists z, 0 < z /\ JS.SF_to_Z r = Some (cond_Zopp s z) /\
             exists m e, r = S754_finite s m e) /\
  (Zpos p < 2 ^ 53 -> JS.SF_to_Z r = Some (cond_Zopp s (Zpos p))).
Proof.
  intros r. subst r. unfold binary_round.
  destruct (shl_align_int p) as (mz & ez & -> & Hez & Hmz & Hdz).
  set (d := Zdigits2 (Zpos p)) in *.
  assert (Hd : 0 < d) by (unfold d; simpl; lia).
  destruct (Z_le_gt_dec d 53) as [Hle | Hgt].
  - (* at most 53 bits: exact *)
    rewrite binary_round_aux_exact by lia.
    assert (Hv : JS.SF_to_Z (S754_finite s mz ez) = Some (cond_Zopp s (Zpos p))).
    { unfold JS.SF_to_Z. rewrite Hmz.
      assert (Hp : 0 < 2 ^ (- ez)) by (apply Z.pow_pos_nonneg; lia).
      destruct (0 <=? ez) eqn:E.
      - apply Z.leb_le in E. replace ez with 0 by lia. simpl Z.opp.
        rewrite Z.pow_0_r, Z.mul_1_r, Z.mul_1_r. reflexivity.
      - rewrite Z.mod_mul by lia. simpl Z.eqb. cbv iota.
        rewrite <- cond_Zopp_mul, Z.div_mul by lia. reflexivity. }
    split; [|split].
    + apply bounded_53; lia.
    + right. exists (Zpos p). split; [lia|]. split; [assumption|]. eauto.
    + intros _. assumption.
  - (* more than 53 bits *)
    assert (Hez0 : ez = 0) by lia. clear Hez. subst ez.
    destruct (binary_round_aux_normal s mz 0 loc_Exact) as [-> | (m & e & -> & Hb & He)];
      try lia.
    + split; [reflexivity|]. split; [left; reflexivity|].
      intros Hlt. exfalso.
      destruct (digits_bounds (Zpos p)) as [Hlo _]; [lia|]. fold d in Hlo.
      assert (2 ^ 53 <= 2 ^ (d - 1)) by (apply Z.pow_le_mono_r; lia). lia.
    + split; [exact Hb|]. split.
      * right. exists (Zpos m * 2 ^ e). split.
        -- apply Z.mul_pos_pos; [lia | apply Z.pow_pos_nonneg; lia].
        -- split; [|eauto]. unfold JS.SF_to_Z.
           replace (0 <=? e) with true by (symmetry; apply Z.leb_le; lia).
           rewrite cond_Zopp_mul. reflexivity.
      * intros Hlt. exfalso.
        destruct (digits_bounds (Zpos p)) as [Hlo _]; [lia|]. fold d in Hlo.
        assert (2 ^ 53 <= 2 ^ (d - 1)) by (apply Z.pow_le_mono_r; lia). lia.
Qed.

Lemma shr_nonneg (mrs : shr_record) (e n : Z) :
  0 <= shr_m mrs -> 0 <= shr_m (fst (shr mrs e n)).
Proof.
  intros Hm. destruct n as [|k|k]; try exact Hm.
  destruct (shr_spec mrs e (Zpos k)) as [_ ->]; try lia.
  apply Z.div_pos; [assumption | apply Z.pow_pos_nonneg; lia].
Qed.

(** Rounding a non-negative mantissa never gives [NaN] and keeps the sign. *)
Lemma binary_round_aux_sign (s : bool) (mx ex : Z) (lx : location) :
  0 <= mx -> JS.sign_of (binary_round_aux prec emax s mx ex lx) = Some s.
Proof.
  intros Hm. unfold binary_round_aux, shr_fexp.
  pose proof (shr_nonneg (shr_record_of_loc mx lx) ex
                (fexp prec emax (Zdigits2 mx + ex) - ex)) as H1.
  rewrite shr_record_of_loc_m in H1. specialize (H1 Hm).
  destruct (shr (shr_record_of_loc mx lx) ex _) as [mrs1 e1]. cbn [fst] in H1.
  set (m2 := round_nearest_even (shr_m mrs1) (loc_of_shr_record mrs1)).
  assert (H2 : 0 <= m2).
  { pose proof (round_nearest_even_bounds (shr_m mrs1) (loc_of_shr_record mrs1)).
    fold m2 in H. lia. }
  pose proof (shr_nonneg (shr_record_of_loc m2 loc_Exact) e1
                (fexp prec emax (Zdigits2 m2 + e1) - e1)) as H3.
  rewrite shr_record_of_loc_m in H3. specialize (H3 H2).
  destruct (shr (shr_record_of_loc m2 loc_Exact) e1 _) as [mrs3 e3]. cbn [fst] in H3.
  destruct (shr_m mrs3) as [|p|p]; try lia; try reflexivity.
  destruct (e3 <=? emax - prec); reflexivity.
Qed.

Lemma Prim2SF_of_valid (f : spec_float) :
  valid_binary f = true -> Prim2SF (SF2Prim f) = f.
Proof. apply Prim2SF_SF2Prim. Qed.

(** [of_Z] on a non-negative integer. *)
Lemma of_Z_nonneg (n : Z) : 0 <= n ->
  Prim2SF (JS.of_Z n) = JS.SF_of_Z n /\
  JS.sign_of (JS.SF_of_Z n) = Some false /\
  (JS.SF_of_Z n = S754_infinity false \/
   exists z, 0 <= z /\ JS.SF_to_Z (JS.SF_of_Z n) = Some z) /\
  (n < 2 ^ 53 -> JS.SF_to_Z (JS.SF_of_Z n) = Some n).
Proof.
  intros Hn. unfold JS.of_Z, JS.SF_of_Z. destruct n as [|p|p]; try lia.
  - simpl. repeat split; try reflexivity. right. exists 0. split; [lia | reflexivity].
  - cbn [binary_normalize].
    destruct (binary_round_int false p) as (Hv & Hc & Hx).
    cbv zeta in Hv, Hc, Hx. cbn [cond_Zopp] in Hc, Hx.
    split; [apply Prim2SF_of_valid; assumption|].
    split; [|split].
    + destruct Hc as [-> | (z & _ & _ & m & e & ->)]; reflexivity.
    + destruct Hc as [-> | (z & Hz & Hs & _)]; [left; reflexivity|].
      right. exists z. split; [lia | assumption].
    + assumption.
Qed.

Lemma Prim2SF_zero : Prim2SF 0%float = S754_zero false.
Proof. reflexivity. Qed.

(** A number above zero is a positive finite number or [+Infinity]. *)
Lemma positive_cases (x : float) : (0 <? x)%float = true ->
  Prim2SF x = S754_infinity false \/ exists m e, Prim2SF x = S754_finite false m e.
Proof.
  rewrite ltb_spec, Prim2SF_zero. unfold SFltb, SFcompare.
  destruct (Prim2SF x) as [s|s| |s m e]; try discriminate.
  - destruct s; [discriminate | auto].
  - destruct s; [discriminate | eauto].
Qed.

Lemma positive_truthy (x : float) : (0 <? x)%float = true ->
  JS.truthy x = true /\ JS.isNaN x = false.
Proof.
  intros H. apply positive_cases in H.
  unfold JS.truthy, JS.isNaN, is_zero, is_nan, PrimFloat.zero.
  rewrite !FloatAxioms.eqb_spec, Prim2SF_zero. unfold SFeqb, SFcompare.
  destruct H as [-> | (m & e & ->)]; simpl; [auto|].
  rewrite Z.compare_refl, Pos.compare_cont_refl. auto.
Qed.


Lemma Prim2SF_eq (x : float) (f : spec_float) :
  Prim2SF x = f -> x = SF2Prim f.
Proof. intros <-. symmetry. apply SF2Prim_Prim2SF. Qed.


(** [Math.max(0, y)] is [y] when [y] is neither [NaN] nor negative. *)
Lemma Math_max_zero (y : float) :
  JS.sign_of (Prim2SF y) = Some false ->
  JS.Math_max 0%float y = y /\ (0 <=? y)%float = true.
Proof.
  intros Hy. unfold JS.Math_max, is_nan.
  rewrite leb_spec, ltb_spec, ltb_spec, !FloatAxioms.eqb_spec, Prim2SF_zero.
  destruct (Prim2SF y) as [s|s| |s m e] eqn:E; try discriminate;
    simpl in Hy; injection Hy as ->.
  - apply Prim2SF_eq in E. subst y. split; reflexivity.
  - split; reflexivity.
  - unfold SFeqb, SFltb, SFleb, SFcompare.
    rewrite Z.compare_refl, Pos.compare_cont_refl. split; reflexivity.
Qed.

Lemma bounded_mantissa (m : positive) (e : Z) :
  bounded prec emax m e = true -> Zpos m < 2 ^ 53.
Proof.
  unfold bounded, canonical_mantissa. intros H. apply andb_prop in H.
  destruct H as [H _]. apply Z.eqb_eq in H.
  change (Zpos (digits2_pos m)) with (Zdigits2 (Zpos m)) in H.
  destruct (digits_bounds (Zpos m)) as [_ Hhi]; [lia|].
  assert (Hd : Zdigits2 (Zpos m) <= 53).
  { unfold fexp, SpecFloat.emin, prec, emax in H. lia. }
  assert (2 ^ Zdigits2 (Zpos m) <= 2 ^ 53) by (apply Z.pow_le_mono_r; lia).
  lia.
Qed.

(** A number between zero and [+Infinity] is finite and positive, with a
    mantissa below [2^53]. *)
Lemma positive_finite (x : float) :
  (0 <? x)%float = true -> (x <? infinity)%float = true ->
  exists m e, Prim2SF x = S754_finite false m e /\ Zpos m < 2 ^ 53.
Proof.
  intros H0 Hinf. destruct (positive_cases x H0) as [E | (m & e & E)].
  - rewrite ltb_spec, E in Hinf. discriminate.
  - exists m, e. split; [assumption|].
    pose proof (Prim2SF_valid x) as Hv. rewrite E in Hv. apply bounded_mantissa in Hv.
    assumption.
Qed.

(** [Math.round] of a positive finite number: a non-negative integer, the
    nearest one. *)
Lemma Math_round_positive (x : float) :
  (0 <? x)%float = true -> (x <? infinity)%float = true ->
  exists z, JS.to_Z (JS.Math_round x) = Some z /\ 0 <= z /\
            JS.nearest_integer (Prim2SF x) z.
Proof.
  intros H0 Hinf. destruct (positive_finite x H0 Hinf) as (m & e & E & Hm).
  unfold JS.Math_round, JS.to_Z. rewrite E.
  destruct (0 <=? e) eqn:He.
  - rewrite E. exists (Zpos m * 2 ^ e). apply Z.leb_le in He.
    unfold JS.SF_to_Z, JS.nearest_integer, cond_Zopp.
    replace (0 <=? e) with true by (symmetry; apply Z.leb_le; lia).
    repeat split. apply Z.mul_nonneg_nonneg; [lia | apply Z.pow_nonneg; lia].
  - apply Z.leb_gt in He. cbn [cond_Zopp].
    rewrite Z.shiftl_div_pow2 by lia.
    set (H := 2 ^ (- e - 1)).
    assert (HH : 0 < H) by (apply Z.pow_pos_nonneg; lia).
    assert (HP : 2 ^ (- e) = 2 * H).
    { unfold H. rewrite <- Z.pow_succ_r by lia. f_equal. lia. }
    rewrite HP.
    set (q := (Zpos m + H) / (2 * H)).
    assert (Hq1 : 2 * H * q <= Zpos m + H) by (apply Z.mul_div_le; lia).
    assert (Hq2 : Zpos m + H < 2 * H * Z.succ q) by (apply Z.mul_succ_div_gt; lia).
    assert (Hq0 : 0 <= q) by (apply Z.div_pos; lia).
    assert (Hq53 : q < 2 ^ 53).
    { apply Z.div_lt_upper_bound; [lia|]. nia. }
    assert (Hnear : JS.nearest_integer (S754_finite false m e) q).
    { unfold JS.nearest_integer, cond_Zopp.
      replace (0 <=? e) with false by (symmetry; apply Z.leb_gt; lia).
      rewrite HP. nia. }
    destruct (q =? 0) eqn:Hz.
    + apply Z.eqb_eq in Hz. exists 0. rewrite Hz in Hnear.
      repeat split; [lia | assumption].
    + exists q. destruct (of_Z_nonneg q Hq0) as (-> & _ & _ & Hx).
      repeat split; [apply Hx; assumption | assumption | assumption].
Qed.

Lemma SFcompare_Eq_sym (a b : spec_float) :
  SFcompare a b = Some Eq -> SFcompare b a = Some Eq.
Proof.
  destruct a as [sa|sa| |sa ma ea], b as [sb|sb| |sb mb eb]; simpl;
    try discriminate; try reflexivity;
    try (destruct sa; discriminate); try (destruct sb; discriminate).
  - destruct sa, sb; try discriminate; reflexivity.
  - destruct sa, sb; try discriminate;
      (destruct (Z.compare_spec ea eb) as [-> | |]; try discriminate;
       rewrite Z.compare_refl; intros H;
       assert (Hm : ma = mb)
         by (apply Pos.compare_eq; unfold Pos.compare;
             destruct (Pos.compare_cont Eq ma mb); try discriminate; reflexivity);
       subst mb; rewrite Pos.compare_cont_refl; reflexivity).
Qed.

(** Equal numbers are above or equal to each other. *)
Lemma eqb_geb (x y : float) : (x =? y)%float = true -> JS.geb x y = true.
Proof.
  unfold JS.geb. rewrite FloatAxioms.eqb_spec, leb_spec. unfold SFeqb, SFleb.
  destruct (SFcompare (Prim2SF x) (Prim2SF y)) as [[]|] eqn:E; try discriminate.
  intros _. rewrite (SFcompare_Eq_sym _ _ E). reflexivity.
Qed.

End Binary64.

(** ** The number of a text of digits *)

Module Digits.

Import Binary64.

Lemma is_digit_cases (c : ascii) : JS.is_digit c = true ->
  In c (list_ascii_of_string "0123456789").
Proof.
  intros H.
  destruct c as [[] [] [] [] [] [] [] []]; vm_compute in H; try discriminate H;
    simpl; tauto.
Qed.

Ltac digit_cases c H :=
  apply is_digit_cases in H; simpl in H;
  repeat (destruct H as [H | H]; [subst c | ]); try contradiction.

Lemma skip_tokens_digit (fuel : nat) (c : ascii) (l : JS.text) :
  JS.is_digit c = true ->
  JS.skip_tokens fuel JS.white_space (c :: l) = c :: l /\
  JS.skip_tokens fuel (map (@rev ascii) JS.white_space) (c :: l) = c :: l.
Proof.
  intros H. destruct fuel as [|fuel]; [split; reflexivity|].
  digit_cases c H; split; reflexivity.
Qed.

Lemma all_digits_filter (l : JS.text) :
  forallb JS.is_digit (JS.strip_non_digits l) = true.
Proof.
  unfold JS.strip_non_digits. apply forallb_forall. intros c Hc.
  apply filter_In in Hc. tauto.
Qed.

Lemma trim_digits (l : JS.text) : forallb JS.is_digit l = true -> JS.trim l = l.
Proof.
  intros H. destruct l as [|c l]; [reflexivity|].
  unfold JS.trim.
  assert (Hc : JS.is_digit c = true) by (simpl in H; apply andb_prop in H; tauto).
  rewrite (proj1 (skip_tokens_digit _ c l Hc)). cbv zeta.
  destruct (rev (c :: l)) as [|c' l'] eqn:E.
  - apply (f_equal (@length ascii)) in E. rewrite length_rev in E. discriminate.
  - assert (Hc' : JS.is_digit c' = true).
    { rewrite forallb_forall in H. apply H. apply in_rev. rewrite E. left. reflexivity. }
    rewrite (proj2 (skip_tokens_digit _ c' l' Hc')).
    rewrite <- E. apply rev_involutive.
Qed.

Lemma span_digits (l : JS.text) :
  forallb JS.is_digit l = true -> JS.span JS.is_digit l = (l, []).
Proof.
  induction l as [|c l IH]; [reflexivity|]. simpl. intros H.
  apply andb_prop in H. destruct H as [-> H]. rewrite IH by assumption. reflexivity.
Qed.

Lemma non_decimal_digits (l : JS.text) :
  forallb JS.is_digit l = true -> JS.non_decimal_literal l = None.
Proof.
  intros H. destruct l as [|a [|c [|d l]]]; simpl in H.
  - reflexivity.
  - apply andb_prop in H. destruct H as [Ha _]. digit_cases a Ha; reflexivity.
  - apply andb_prop in H. destruct H as [Ha _]. digit_cases a Ha; reflexivity.
  - apply andb_prop in H. destruct H as [Ha H].
    apply andb_prop in H. destruct H as [Hc _].
    digit_cases a Ha; try reflexivity.
    digit_cases c Hc; reflexivity.
Qed.

Lemma decimal_literal_digits (c : ascii) (l : JS.text) :
  forallb JS.is_digit (c :: l) = true ->
  JS.decimal_literal (c :: l) = Some (JS.SF_of_decimal (JS.decimal_value (c :: l)) 0).
Proof.
  intros H. unfold JS.decimal_literal.
  assert (Hc : JS.is_digit c = true) by (simpl in H; apply andb_prop in H; tauto).
  assert (Hs : JS.take_sign (c :: l) = (false, c :: l))
    by (digit_cases c Hc; reflexivity).
  rewrite Hs.
  assert (Hi : JS.strip_prefix JS.Infinity_text (c :: l) = None)
    by (digit_cases c Hc; reflexivity).
  rewrite Hi. unfold JS.unsigned_decimal.
  rewrite span_digits by assumption. cbn [JS.exponent_part length Z.of_nat].
  rewrite app_nil_r. reflexivity.
Qed.

(** [Number] of a text of digits: the number nearest to its decimal value. *)
Lemma StringToNumber_digits (l : JS.text) :
  forallb JS.is_digit l = true ->
  JS.StringToNumber l = JS.of_Z (JS.decimal_value l).
Proof.
  intros H. unfold JS.StringToNumber. rewrite trim_digits by assumption.
  destruct l as [|c l]; [reflexivity|].
  rewrite non_decimal_digits, decimal_literal_digits by assumption.
  unfold JS.of_Z, JS.SF_of_decimal. f_equal.
  destruct (JS.decimal_value (c :: l) =? 0) eqn:E.
  - apply Z.eqb_eq in E. rewrite E. reflexivity.
  - simpl (0 <=? 0). cbv iota. rewrite Z.pow_0_r, Z.mul_1_r. reflexivity.
Qed.

Lemma fold_decimal_nonneg (l : JS.text) :
  forallb JS.is_digit l = true -> forall acc, 0 <= acc ->
  0 <= fold_left (fun acc c => 10 * acc + JS.digit_value c) l acc.
Proof.
  induction l as [|c l IH]; intros H acc Hacc; [exact Hacc|].
  simpl in H. apply andb_prop in H. destruct H as [Hc H].
  cbn [fold_left]. apply IH; [assumption|].
  unfold JS.is_digit in Hc. apply andb_prop in Hc. destruct Hc as [Hlo _].
  apply Z.leb_le in Hlo. unfold JS.digit_value. lia.
Qed.

Lemma decimal_value_nonneg (l : JS.text) :
  forallb JS.is_digit l = true -> 0 <= JS.decimal_value l.
Proof. intros H. apply fold_decimal_nonneg; [assumption | lia]. Qed.

End Digits.

(** ** Promises *)

Module Promises.

Lemma first_rejection_sound {A : Type} (ps : list (JS.Promise A)) t e :
  JS.first_rejection ps = Some (t, e) ->
  exists p, In p ps /\ JS.outcome p = JS.Rejected e.
Proof.
  revert t e. induction ps as [|p ps IH]; intros t e H; [discriminate|].
  simpl in H. destruct (JS.outcome p) as [a|e0] eqn:Ep.
  - destruct (IH _ _ H) as (q & Hq & Hr). exists q. split; [right; assumption | assumption].
  - destruct (JS.first_rejection ps) as [[t' e']|].
    + destruct (JS.settled_at p <=? t')%nat; injection H as <- <-.
      * exists p. split; [left; reflexivity | assumption].
      * destruct (IH _ _ eq_refl) as (q & Hq & Hr).
        exists q. split; [right; assumption | assumption].
    + injection H as <- <-. exists p. split; [left; reflexivity | assumption].
Qed.

Lemma first_rejection_complete {A : Type} (ps : list (JS.Promise A)) p e :
  In p ps -> JS.outcome p = JS.Rejected e -> JS.first_rejection ps <> None.
Proof.
  induction ps as [|q ps IH]; intros Hin Hp; [contradiction|].
  simpl. destruct Hin as [-> | Hin].
  - rewrite Hp. destruct (JS.first_rejection ps) as [[t' e']|]; [|discriminate].
    destruct (JS.settled_at p <=? t')%nat; discriminate.
  - specialize (IH Hin Hp). destruct (JS.outcome q).
    + assumption.
    + destruct (JS.first_rejection ps) as [[t' e']|]; [|discriminate].
      destruct (JS.settled_at q <=? t')%nat; discriminate.
Qed.

Lemma values_all {A : Type} (ps : list (JS.Promise A)) (l : list A) :
  Forall2 (fun p a => JS.outcome p = JS.Fulfilled a) ps l ->
  JS.first_rejection ps = None /\ JS.values ps = l.
Proof.
  induction 1 as [|p a ps l Hp _ [IH1 IH2]]; [split; reflexivity|].
  simpl. rewrite Hp, IH1, IH2. split; reflexivity.
Qed.

(** [Promise.all] is fulfilled with the values when every promise is. *)
Lemma Promise_all_fulfilled {A : Type} (ps : list (JS.Promise A)) (l : list A) :
  Forall2 (fun p a => JS.outcome p = JS.Fulfilled a) ps l ->
  JS.Promise_all ps = JS.Fulfilled l.
Proof.
  intros H. apply values_all in H. destruct H as [H1 H2].
  unfold JS.Promise_all. rewrite H1, H2. reflexivity.
Qed.

(** [Promise.all] is rejected when a promise is, with the reason of one of
    the rejected promises. *)
Lemma Promise_all_rejected {A : Type} (ps : list (JS.Promise A)) p e :
  In p ps -> JS.outcome p = JS.Rejected e ->
  exists q e', In q ps /\ JS.outcome q = JS.Rejected e' /\
               JS.Promise_all ps = JS.Rejected e'.
Proof.
  intros Hin Hp. pose proof (first_rejection_complete ps p e Hin Hp) as Hn.
  unfold JS.Promise_all. destruct (JS.first_rejection ps) as [[t e']|] eqn:E;
    [|contradiction].
  destruct (first_rejection_sound ps t e' E) as (q & Hq & Hr).
  exists q, e'. auto.
Qed.

Lemma Promise_all_Fulfilled_inv {A : Type} (ps : list (JS.Promise A)) (l : list A) :
  JS.Promise_all ps = JS.Fulfilled l ->
  Forall2 (fun p a => JS.outcome p = JS.Fulfilled a) ps l.
Proof.
  unfold JS.Promise_all. destruct (JS.first_rejection ps) as [[t e]|] eqn:E; [discriminate|].
  intros H. injection H as <-. induction ps as [|p ps IH]; [constructor|].
  simpl in E |- *. destruct (JS.outcome p) as [a|e] eqn:Ep.
  - constructor; [assumption | apply IH; assumption].
  - destruct (JS.first_rejection ps) as [[t' e']|]; [|discriminate].
    destruct (JS.settled_at p <=? t')%nat; discriminate.
Qed.

Lemma Promise_all_Rejected_inv {A : Type} (ps : list (JS.Promise A)) (e : JS.Thrown) :
  JS.Promise_all ps = JS.Rejected e -> exists p, In p ps /\ JS.outcome p = JS.Rejected e.
Proof.
  unfold JS.Promise_all. destruct (JS.first_rejection ps) as [[t e']|] eqn:E; [|discriminate].
  intros H. injection H as <-. apply (first_rejection_sound ps t e' E).
Qed.

End Promises.

Import JS App Binary64 Digits Promises.

(** ** The declaration check *)

Lemma truthy_not_nan (x : number) : truthy x = true -> isNaN x = false.
Proof.
  unfold truthy, isNaN. destruct (is_nan x); [|reflexivity].
  rewrite orb_true_r. discriminate.
Qed.

Lemma rates_cases (st : State) (c : Currency) :
  (truthy (Number (rate_text st c)) = true /\ rates st c = Number (rate_text st c)) \/
  (truthy (Number (rate_text st c)) = false /\ rates st c = nan).
Proof.
  unfold rates, or_else. destruct (truthy (Number (rate_text st c))); auto.
Qed.

(** [check] in closed form: a result is computed exactly when the rate and
    the amount are both neither zero nor [NaN]. *)
Lemma check_eq (st : State) (c : Currency) (T : number) :
  check st c T =
  if truthy (Number (rate_text st c)) && truthy (idr st) then
    Some {| converted := (idr st / rates st c)%float;
            needsDecl := geb (idr st / rates st c)%float T;
            maxBeforeDeclIDR := Math_max 0%float (Math_floor (T * rates st c)%float) |}
  else None.
Proof.
  unfold check. destruct (rates_cases st c) as [[Ht ->] | [Ht ->]]; rewrite Ht.
  - rewrite (truthy_not_nan _ Ht). simpl. destruct (truthy (idr st)); reflexivity.
  - reflexivity.
Qed.

Lemma Number_replace (s : string) :
  Number (replace_non_digits s) =
  of_Z (decimal_value (strip_non_digits (list_ascii_of_string s))).
Proof.
  unfold Number, replace_non_digits. rewrite list_ascii_of_string_of_list_ascii.
  apply StringToNumber_digits. apply all_digits_filter.
Qed.

(** The parsed amount is the number nearest to the value of the digits of the
    amount text. *)
Lemma idr_eq (st : State) :
  idr st = of_Z (decimal_value (strip_non_digits (list_ascii_of_string (amountIDR st)))).
Proof. apply Number_replace. Qed.


Lemma signed_not_nan (x : number) (s : bool) :
  sign_of (Prim2SF x) = Some s -> is_nan x = false.
Proof.
  intros H. unfold is_nan. rewrite FloatAxioms.eqb_spec. unfold SFeqb, SFcompare.
  destruct (Prim2SF x) as [s'|s'| |s' m e]; try discriminate; try reflexivity.
  - destruct s'; reflexivity.
  - rewrite Z.compare_refl, Pos.compare_cont_refl. destruct s'; reflexivity.
Qed.

Lemma positive_rate (st : State) (c : Currency) :
  (0 <? rates st c)%float = true -> truthy (Number (rate_text st c)) = true.
Proof.
  intros H. destruct (rates_cases st c) as [[Ht _] | [_ E]]; [assumption|].
  rewrite E in H. discriminate.
Qed.

(** C1: for a parsed amount [A] that is not zero and a rate [R > 0], the
    check of a limit [T] gives a result whose converted amount is [A / R] and
    whose flag is [A / R >= T]; when the converted amount equals [T] the flag
    is set. *)
Theorem check_converts_and_compares (st : State) (c : Currency) (T : number) :
  truthy (idr st) = true -> (0 <? rates st c)%float = true ->
  exists r, check st c T = Some r /\
    converted r = (idr st / rates st c)%float /\
    needsDecl r = (T <=? idr st / rates st c)%float /\
    ((converted r =? T)%float = true -> needsDecl r = true).
Proof.
  intros HA HR. rewrite check_eq, (positive_rate st c HR), HA. simpl.
  eexists. split; [reflexivity|]. cbn [converted needsDecl].
  repeat split. apply eqb_geb.
Qed.

Lemma check_converts_and_compares_boundary :
  let st := typed "240.000.000" "12000" "" "" in
  truthy (idr st) = true /\ (0 <? rates st SGD)%float = true /\
  exists r, check st SGD 20000%float = Some r /\
    converted r = (idr st / rates st SGD)%float /\
    needsDecl r = (20000 <=? idr st / rates st SGD)%float /\
    ((converted r =? 20000)%float = true -> needsDecl r = true).
Proof.
  split; [vm_compute; reflexivity|]. split; [vm_compute; reflexivity|].
  apply (check_converts_and_compares (typed "240.000.000" "12000" "" "") SGD 20000%float);
    vm_compute; reflexivity.
Defined.

(** [check] gives no result exactly when the amount or the rate is zero or
    [NaN]. *)
Lemma check_None_iff (st : State) (c : Currency) (T : number) :
  check st c T = None <->
  truthy (idr st) = false \/ truthy (Number (rate_text st c)) = false.
Proof.
  rewrite check_eq.
  destruct (truthy (Number (rate_text st c))), (truthy (idr st)); simpl;
    split; intros H; try discriminate; try reflexivity; auto;
    destruct H; discriminate.
Qed.

Lemma not_truthy (x : number) :
  is_zero x = true \/ is_nan x = true -> truthy x = false.
Proof. unfold truthy. intros [-> | ->]; [reflexivity | apply negb_false_iff, orb_true_r]. Qed.

(** C3, as amended: when the parsed amount is zero or [NaN], or the rate text
    of the jurisdiction is empty, not a number, or zero, the check gives
    [null].  Nothing is said of a negative rate, which is a rate for [check]. *)
Theorem check_undetermined (st : State) (c : Currency) (T : number) :
  (is_zero (idr st) = true \/ is_nan (idr st) = true) \/
  (rate_text st c = ""%string \/
   is_nan (Number (rate_text st c)) = true \/
   is_zero (Number (rate_text st c)) = true) ->
  check st c T = None.
Proof.
  intros H. apply check_None_iff. destruct H as [H | [H | H]].
  - left. apply not_truthy. assumption.
  - right. rewrite H. reflexivity.
  - right. apply not_truthy. tauto.
Qed.

Lemma check_undetermined_not_a_number :
  let st := typed "25.000.000" "12,000 IDR" "" "0" in
  ((is_zero (idr st) = true \/ is_nan (idr st) = true) \/
   (rate_text st SGD = ""%string \/
    is_nan (Number (rate_text st SGD)) = true \/
    is_zero (Number (rate_text st SGD)) = true)) /\
  check st SGD 20000%float = None /\ check st AED 60000%float = None /\ check st EUR 10000%float = None.
Proof.
  split; [right; right; left; vm_compute; reflexivity|].
  split; [|split].
  - apply (check_undetermined (typed "25.000.000" "12,000 IDR" "" "0") SGD 20000%float).
    right. right. left. vm_compute. reflexivity.
  - apply (check_undetermined (typed "25.000.000" "12,000 IDR" "" "0") AED 60000%float).
    right. left. reflexivity.
  - apply (check_undetermined (typed "25.000.000" "12,000 IDR" "" "0") EUR 10000%float).
    right. right. right. vm_compute. reflexivity.
Defined.

(** C3 fails for a negative rate: with the rate text [-5] the rate is
    negative and the check computes a result. *)
Lemma check_negative_rate :
  (rates (typed "1000" "-5" "" "") SGD <? 0)%float = true /\
  results (typed "1000" "-5" "" "") SG =
    Some {| converted := (-200)%float; needsDecl := false; maxBeforeDeclIDR := 0%float |}.
Proof. split; vm_compute; reflexivity. Qed.



(** The limit in home currency is computed in binary64: with the rate text
    [0.3] the rate is [5404319552844595 / 2^54], the exact product with 20000
    is below 6000, and the binary64 product is 6000. *)
Remark threshold_product_is_rounded :
  let st := typed "1" "0.3" "" "" in
  Prim2SF (rates st SGD) = S754_finite false 5404319552844595 (-54) /\
  (20000 * 5404319552844595) / 2 ^ 54 = 5999 /\
  option_map maxBeforeDeclIDR (results st SG) = Some 6000%float.
Proof. cbv zeta. repeat split; vm_compute; reflexivity. Qed.

(** The scenarios of the specification. *)
Example scenarios :
  results (typed "25.000.000" "12000" "4200" "17000") SG =
    Some {| converted := (25000000 / 12000)%float; needsDecl := false;
            maxBeforeDeclIDR := 240000000%float |} /\
  results (typed "1,200,000,000" "12000" "4200" "17000") AE =
    Some {| converted := (1200000000 / 4200)%float; needsDecl := true;
            maxBeforeDeclIDR := 252000000%float |} /\
  results (typed "150,000,000" "12000" "4200" "17000") EU =
    Some {| converted := (150000000 / 17000)%float; needsDecl := false;
            maxBeforeDeclIDR := 170000000%float |}.
Proof. repeat split; vm_compute; reflexivity. Qed.

Lemma strip_no_digit (l : text) :
  forallb (fun a => negb (is_digit a)) l = true -> strip_non_digits l = [].
Proof.
  unfold strip_non_digits. induction l as [|a l IH]; [reflexivity|].
  simpl. intros H. apply andb_prop in H. destruct H as [Ha H].
  apply negb_true_iff in Ha. rewrite Ha. apply IH. assumption.
Qed.

(** C6: when the amount text is empty or has no digit, nothing is left of it
    after the non-digits are removed, the parsed amount is zero, and the
    result is [null] for every jurisdiction, whatever the rates. *)
Theorem no_digits_undetermined (st : State) :
  forallb (fun a => negb (is_digit a)) (list_ascii_of_string (amountIDR st)) = true ->
  replace_non_digits (amountIDR st) = ""%string /\
  idr st = 0%float /\
  (forall k, results st k = None) /\
  (forall c T, check st c T = None).
Proof.
  intros H.
  assert (E : replace_non_digits (amountIDR st) = ""%string).
  { unfold replace_non_digits. rewrite strip_no_digit by assumption. reflexivity. }
  assert (E0 : idr st = 0%float) by (unfold idr; rewrite E; reflexivity).
  assert (Hc : forall c T, check st c T = None).
  { intros c T. apply check_None_iff. left. rewrite E0. reflexivity. }
  repeat split; try assumption. intros k. apply Hc.
Qed.

Lemma no_digits_undetermined_currency_sign :
  let st := typed "Rp -,.- " "12000" "4200" "17000" in
  forallb (fun a => negb (is_digit a)) (list_ascii_of_string (amountIDR st)) = true /\
  replace_non_digits (amountIDR st) = ""%string /\
  idr st = 0%float /\
  (forall k, results st k = None) /\
  (forall c T, check st c T = None).
Proof.
  split; [reflexivity|].
  apply (no_digits_undetermined (typed "Rp -,.- " "12000" "4200" "17000")).
  reflexivity.
Defined.



(** C10, as amended: the parsed amount is the number nearest to the integer
    [n] written by the digits of the text, in their order, every other
    character being dropped; it is [n] itself when [n < 2^53]; it is never
    [NaN], never negative, and never fractional: it is an integer or
    [+Infinity]. *)
Theorem idr_nearest_to_digits (st : State) :
  let n := decimal_value (strip_non_digits (list_ascii_of_string (amountIDR st))) in
  idr st = of_Z n /\ 0 <= n /\
  (n < 2 ^ 53 -> to_Z (idr st) = Some n) /\
  is_nan (idr st) = false /\ (0 <=? idr st)%float = true /\
  (idr st = infinity \/ exists z, 0 <= z /\ to_Z (idr st) = Some z).
Proof.
  intros n. rewrite idr_eq. fold n.
  assert (Hn : 0 <= n) by (apply decimal_value_nonneg, all_digits_filter).
  destruct (of_Z_nonneg n Hn) as (HP & Hs & Hc & Hx).
  assert (Hs' : sign_of (Prim2SF (of_Z n)) = Some false) by (rewrite HP; assumption).
  split; [reflexivity|]. split; [assumption|]. split; [|split; [|split]].
  - intros Hlt. unfold to_Z. rewrite HP. apply Hx. assumption.
  - apply (signed_not_nan _ _ Hs').
  - apply Math_max_zero. assumption.
  - destruct Hc as [Hinf | (z & Hz & Hv)].
    + left. unfold of_Z. rewrite Hinf. reflexivity.
    + right. exists z. split; [assumption|]. unfold to_Z. rewrite HP. assumption.
Qed.

Lemma idr_nearest_to_digits_examples :
  to_Z (idr (typed "12.5" "" "" "")) = Some 125 /\
  to_Z (idr (typed "-500" "" "" "")) = Some 500.
Proof.
  split.
  - apply (proj1 (proj2 (proj2 (idr_nearest_to_digits (typed "12.5" "" "" ""))))).
    vm_compute. reflexivity.
  - apply (proj1 (proj2 (proj2 (idr_nearest_to_digits (typed "-500" "" "" ""))))).
    vm_compute. reflexivity.
Defined.

(** C10 fails above [2^53]: the digits of [9007199254740993] write an odd
    integer, and the parsed amount is the even number next to it. *)
Lemma idr_rounds_large_amounts :
  decimal_value (strip_non_digits (list_ascii_of_string "9007199254740993")) =
    9007199254740993 /\
  to_Z (idr (typed "9007199254740993" "" "" "")) = Some 9007199254740992.
Proof. split; vm_compute; reflexivity. Qed.

(** ** The rate fetch *)

(** The object [map] after the [forEach]: the numeric rate of each body. *)
Lemma collect_spec (jS jA jE : JSON) (c : Currency) :
  collect [jS; jA; jE] c =
  idrPer (match c with SGD => jS | AED => jA | EUR => jE end).
Proof.
  unfold collect, symbols. cbn [combine fold_left].
  destruct c; destruct (idrPer jS), (idrPer jA), (idrPer jE); reflexivity.
Qed.

(** The [try] block either throws the reason of a lookup that failed, or
    every lookup gave a body and the block goes on with the rates found. *)
Lemma try_block_cases (run : Run) (st : State) :
  (exists cur e, lookup run cur = Rejected e /\ try_block run st = Rejected e) \/
  (exists js, (forall cur, lookup run cur = Fulfilled (js cur)) /\
              try_block run st = after_await run st (fun c => idrPer (js c))).
Proof.
  unfold try_block.
  destruct (Promise_all (List.map (fetch run) symbols)) as [responses|e] eqn:E1.
  - apply Promise_all_Fulfilled_inv in E1. cbn [symbols List.map] in E1.
    inversion E1 as [|p1 rS ps1 l1 HS E1']; subst.
    inversion E1' as [|p2 rA ps2 l2 HA E1'']; subst.
    inversion E1'' as [|p3 rE ps3 l3 HE E1''']; subst.
    inversion E1'''; subst. cbn [List.map].
    destruct (Promise_all [json rS; json rA; json rE]) as [jsons|e] eqn:E2.
    + right. apply Promise_all_Fulfilled_inv in E2.
      inversion E2 as [|q1 jS qs1 m1 JS E2']; subst.
      inversion E2' as [|q2 jA qs2 m2 JA E2'']; subst.
      inversion E2'' as [|q3 jE qs3 m3 JE E2''']; subst.
      inversion E2'''; subst.
      exists (fun c => match c with SGD => jS | AED => jA | EUR => jE end). split.
      * intros cur. unfold lookup. destruct cur.
        -- rewrite HS. assumption.
        -- rewrite HA. assumption.
        -- rewrite HE. assumption.
      * unfold after_await, missing, rounded. rewrite !collect_spec. reflexivity.
    + left. apply Promise_all_Rejected_inv in E2. destruct E2 as (p & Hin & Hp).
      simpl in Hin. destruct Hin as [<- | [<- | [<- | []]]].
      * exists SGD, e. split; [unfold lookup; rewrite HS; assumption | reflexivity].
      * exists AED, e. split; [unfold lookup; rewrite HA; assumption | reflexivity].
      * exists EUR, e. split; [unfold lookup; rewrite HE; assumption | reflexivity].
  - left. apply Promise_all_Rejected_inv in E1. destruct E1 as (p & Hin & Hp).
    simpl in Hin. destruct Hin as [<- | [<- | [<- | []]]].
    + exists SGD, e. split; [unfold lookup; rewrite Hp; reflexivity | reflexivity].
    + exists AED, e. split; [unfold lookup; rewrite Hp; reflexivity | reflexivity].
    + exists EUR, e. split; [unfold lookup; rewrite Hp; reflexivity | reflexivity].
Qed.

Lemma lookup_functional (run : Run) (cur : Currency) (j j' : JSON) :
  lookup run cur = Fulfilled j -> lookup run cur = Fulfilled j' -> j = j'.
Proof. intros H H'. rewrite H in H'. injection H' as <-. reflexivity. Qed.

(** When every lookup gives a body, the [try] block goes on with the rate
    found in each body. *)
Lemma try_block_fulfilled (run : Run) (st : State) (js : Currency -> JSON) :
  (forall cur, lookup run cur = Fulfilled (js cur)) ->
  try_block run st = after_await run st (fun c => idrPer (js c)).
Proof.
  intros H. destruct (try_block_cases run st) as [(cur & e & He & _) | (js' & H' & ->)].
  - rewrite H in He. discriminate.
  - unfold after_await, missing, rounded.
    rewrite !(lookup_functional _ _ _ _ (H' _) (H _)). reflexivity.
Qed.

(** When a lookup fails, the [try] block throws the reason of a lookup that
    failed. *)
Lemma try_block_rejected (run : Run) (st : State) :
  (exists cur e, lookup run cur = Rejected e) ->
  exists cur e, lookup run cur = Rejected e /\ try_block run st = Rejected e.
Proof.
  intros (cur & e & He).
  destruct (try_block_cases run st) as [H | (js & H & _)]; [assumption|].
  rewrite H in He. discriminate.
Qed.

Lemma missing_absent (map : RateMap) (c : Currency) :
  map c = None -> missing map SGD || missing map AED || missing map EUR = true.
Proof.
  intros H. unfold missing. destruct c; rewrite H; simpl;
    repeat rewrite orb_true_r; reflexivity.
Qed.

(** What [loadRates] leaves when the [try] block throws: the message is
    stored, and nothing else of the state changes but the flag. *)
Lemma loadRates_thrown (run : Run) (st : State) (e : Thrown) :
  try_block run (setFetchError None (setFetching true st)) = Rejected e ->
  succeeded run st = false /\
  fetchError (loadRates run st) = Some (describe e) /\
  (forall c, rate_text (loadRates run st) c = rate_text st c) /\
  lastFetchedAt (loadRates run st) = lastFetchedAt st /\
  fetching (loadRates run st) = false.
Proof.
  intros H. unfold succeeded, loadRates. rewrite H.
  repeat split.
Qed.

(** C2: when a lookup fails, or the rate is absent from a response, the
    fetch fails with one error message, and the three rates and the time of
    the last fetch are as they were before the call. *)
Theorem loadRates_failure_keeps_rates (run : Run) (st : State) :
  (exists cur, (exists e, lookup run cur = Rejected e) \/
               (exists j, lookup run cur = Fulfilled j /\ idrPer j = None)) ->
  succeeded run st = false /\
  (exists msg, fetchError (loadRates run st) = Some msg) /\
  (forall c, rate_text (loadRates run st) c = rate_text st c) /\
  lastFetchedAt (loadRates run st) = lastFetchedAt st.
Proof.
  intros (cur & H).
  assert (Ht : exists e, try_block run (setFetchError None (setFetching true st)) = Rejected e).
  { destruct (try_block_cases run (setFetchError None (setFetching true st)))
      as [(cur' & e & _ & Ht) | (js & Hjs & Ht)]; [eauto|].
    destruct H as [(e & He) | (j & Hj & Hn)].
    - rewrite Hjs in He. discriminate.
    - rewrite Ht. unfold after_await.
      rewrite (missing_absent _ cur); [eauto|].
      rewrite (lookup_functional _ _ _ _ (Hjs cur) Hj). assumption. }
  destruct Ht as (e & Ht).
  destruct (loadRates_thrown run st e Ht) as (Hs & Hm & Hr & Hl & _).
  eauto.
Qed.

Lemma loadRates_failure_keeps_rates_network_error :
  let run := run_of (answered (body (JNumber 11234.5%float)))
                    (failed 3%nat (Some "Failed to fetch"%string))
                    (answered (body (JNumber 17000%float))) in
  let st := typed "25.000.000" "12000" "4200" "17500" in
  (exists cur, (exists e, lookup run cur = Rejected e) \/
               (exists j, lookup run cur = Fulfilled j /\ idrPer j = None)) /\
  succeeded run st = false /\
  (exists msg, fetchError (loadRates run st) = Some msg) /\
  (forall c, rate_text (loadRates run st) c = rate_text st c) /\
  lastFetchedAt (loadRates run st) = lastFetchedAt st.
Proof.
  split.
  - exists AED. left. eexists. reflexivity.
  - apply (loadRates_failure_keeps_rates
             (run_of (answered (body (JNumber 11234.5%float)))
                     (failed 3%nat (Some "Failed to fetch"%string))
                     (answered (body (JNumber 17000%float))))
             (typed "25.000.000" "12000" "4200" "17500")).
    exists AED. left. eexists. reflexivity.
Defined.








(** C8, as amended: when every lookup gives a body and the rate is absent
    from one of them, the fetch fails with the message
    [Unvollständige Kurse]; when a lookup fails, the fetch fails with the
    message of the reason of a failed lookup, or with
    [Konnte Kurse nicht laden.] when that reason has no message or an empty
    one. *)
Theorem loadRates_error_message (run : Run) (st : State) :
  (forall js, (forall c, lookup run c = Fulfilled (js c)) ->
              (exists c, idrPer (js c) = None) ->
              fetchError (loadRates run st) = Some "Unvollständige Kurse"%string) /\
  ((exists c e, lookup run c = Rejected e) ->
   exists c e, lookup run c = Rejected e /\
     fetchError (loadRates run st) =
       Some match message e with
            | Some m => if String.eqb m "" then "Konnte Kurse nicht laden."%string else m
            | None => "Konnte Kurse nicht laden."%string
            end).
Proof.
  split.
  - intros js Hjs (c & Hc).
    assert (Ht : try_block run (setFetchError None (setFetching true st))
                 = Rejected {| message := Some incomplete_message |}).
    { rewrite (try_block_fulfilled run _ js Hjs). unfold after_await.
      rewrite (missing_absent _ c Hc). reflexivity. }
    destruct (loadRates_thrown run st _ Ht) as (_ & Hm & _). exact Hm.
  - intros H.
    destruct (try_block_rejected run (setFetchError None (setFetching true st)) H)
      as (c & e & He & Ht).
    exists c, e. split; [assumption|].
    destruct (loadRates_thrown run st _ Ht) as (_ & Hm & _). exact Hm.
Qed.

Lemma loadRates_error_message_examples :
  let ok := answered (body (JNumber 17000%float)) in
  let st := typed "" "" "" "" in
  fetchError (loadRates (run_of ok (answered (body JNull)) ok) st)
    = Some "Unvollständige Kurse"%string /\
  (exists c e, lookup (run_of ok (failed 3%nat (Some "Failed to fetch"%string)) ok) c
               = Rejected e /\
     fetchError (loadRates (run_of ok (failed 3%nat (Some "Failed to fetch"%string)) ok) st)
       = Some match message e with
              | Some m => if String.eqb m "" then "Konnte Kurse nicht laden."%string else m
              | None => "Konnte Kurse nicht laden."%string
              end).
Proof.
  cbv zeta. split.
  - apply (proj1 (loadRates_error_message
                    (run_of (answered (body (JNumber 17000%float)))
                            (answered (body JNull))
                            (answered (body (JNumber 17000%float))))
                    (typed "" "" "" ""))
             (fun c => match c with
                       | AED => body JNull
                       | _ => body (JNumber 17000%float)
                       end)).
    + intros []; reflexivity.
    + exists AED. reflexivity.
  - apply (proj2 (loadRates_error_message
                    (run_of (answered (body (JNumber 17000%float)))
                            (failed 3%nat (Some "Failed to fetch"%string))
                            (answered (body (JNumber 17000%float))))
                    (typed "" "" "" ""))).
    exists AED. eexists. reflexivity.
Defined.

(** C8 fails as it is written: the message of an incomplete set of rates is
    not the text [incomplete rates]. *)
Lemma loadRates_incomplete_message_text :
  let ok := answered (body (JNumber 17000%float)) in
  fetchError (loadRates (run_of ok (answered (body JNull)) ok) (typed "" "" "" ""))
    = Some "Unvollständige Kurse"%string /\
  fetchError (loadRates (run_of ok (answered (body JNull)) ok) (typed "" "" "" ""))
    <> Some "incomplete rates"%string.
Proof. cbv zeta. split; [reflexivity | discriminate]. Qed.

(** * Further properties of the component *)

(** ** The cards *)

Lemma rates_truthy (st : State) (c : Currency) :
  truthy (rates st c) = truthy (Number (rate_text st c)).
Proof.
  destruct (rates_cases st c) as [[Ht ->] | [Ht ->]]; [reflexivity|].
  rewrite Ht. reflexivity.
Qed.

(** X1: a card that is rendered shows the hint exactly when the result of
    its country is [null], and the panel of the result otherwise: the guard
    of the card and the guard of [check] agree, so the last branch of the
    conditional is never taken. *)
Theorem card_follows_results (st : State) (key : Country) :
  card st key =
    (if showAll st || Country_eqb key (activeTab st) then
       Some match results st key with
            | Some r => Panel r
            | None => Hint (currency (LIMITS key))
            end
     else None) /\
  card st key <> Some Nothing.
Proof.
  assert (E : card st key =
    (if showAll st || Country_eqb key (activeTab st) then
       Some match results st key with
            | Some r => Panel r
            | None => Hint (currency (LIMITS key))
            end
     else None)).
  { unfold card, results. cbv zeta. rewrite check_eq, rates_truthy.
    destruct (showAll st || Country_eqb key (activeTab st)); [|reflexivity].
    cbn [negb].
    destruct (truthy (idr st)), (truthy (Number (rate_text st (currency (LIMITS key)))));
      reflexivity. }
  split; [exact E|]. rewrite E.
  destruct (showAll st || Country_eqb key (activeTab st)); [|discriminate].
  destruct (results st key); discriminate.
Qed.

(** ** The rate fetch, for every run *)

(** The state that a successful [try] block leaves. *)
Lemma try_block_shape (run : Run) :
  (exists e, forall st, try_block run st = Rejected e) \/
  (exists map,
     missing map SGD || missing map AED || missing map EUR = false /\
     forall st, try_block run st =
       Fulfilled (setLastFetchedAt (Some (now run))
                    (setIdrPer EUR (rounded map EUR)
                       (setIdrPer AED (rounded map AED)
                          (setIdrPer SGD (rounded map SGD) st))))).
Proof.
  unfold try_block.
  destruct (Promise_all (List.map (fetch run) symbols)) as [responses|e];
    [|left; exists e; reflexivity].
  destruct (Promise_all (List.map json responses)) as [jsons|e];
    [|left; exists e; reflexivity].
  unfold after_await.
  destruct (missing (collect jsons) SGD || missing (collect jsons) AED
            || missing (collect jsons) EUR) eqn:E.
  - left. eexists. reflexivity.
  - right. exists (collect jsons). split; [assumption | reflexivity].
Qed.

Lemma missing_false (map : RateMap) (c : Currency) :
  missing map c = false -> exists x, map c = Some x /\ truthy x = true.
Proof.
  unfold missing. destruct (map c) as [x|]; [|discriminate].
  intros H. exists x. split; [reflexivity|]. apply negb_false_iff. assumption.
Qed.

Lemma missing_none (map : RateMap) :
  missing map SGD || missing map AED || missing map EUR = false ->
  forall c, missing map c = false.
Proof.
  intros H c. apply orb_false_elim in H. destruct H as [H HE].
  apply orb_false_elim in H. destruct H as [HS HA]. destruct c; assumption.
Qed.

(** X2: the fetch succeeds exactly when each of the three lookups gives a
    body whose [rates.IDR] is a number other than zero and [NaN]. *)
Theorem succeeded_iff (run : Run) (st : State) :
  succeeded run st = true <->
  forall cur, exists j x,
    lookup run cur = Fulfilled j /\ idrPer j = Some x /\ truthy x = true.
Proof.
  unfold succeeded.
  destruct (try_block_cases run (setFetchError None (setFetching true st)))
    as [(cur & e & He & ->) | (js & Hjs & ->)].
  - split; [discriminate|]. intros H. destruct (H cur) as (j & x & Hj & _).
    rewrite Hj in He. discriminate.
  - unfold after_await.
    destruct (missing (fun c => idrPer (js c)) SGD
              || missing (fun c => idrPer (js c)) AED
              || missing (fun c => idrPer (js c)) EUR) eqn:E.
    + split; [discriminate|]. intros H. exfalso.
      assert (Hm : forall c, missing (fun c => idrPer (js c)) c = false).
      { intros c. destruct (H c) as (j & x & Hj & Hx & Ht).
        unfold missing. rewrite (lookup_functional _ _ _ _ (Hjs c) Hj), Hx, Ht.
        reflexivity. }
      rewrite !Hm in E. discriminate.
    + split; [|reflexivity]. intros _ cur.
      destruct (missing_false _ cur (missing_none _ E cur)) as (x & Hx & Ht).
      exists (js cur), x. auto.
Qed.

Lemma succeeded_iff_three_rates :
  let run := run_of (answered (body (JNumber 11234.5%float)))
                    (answered (body (JNumber 4200.25%float)))
                    (answered (body (JNumber 17000%float))) in
  succeeded run (typed "" "" "" "") = true /\
  forall cur, exists j x,
    lookup run cur = Fulfilled j /\ idrPer j = Some x /\ truthy x = true.
Proof.
  cbv zeta. split; [reflexivity|].
  apply (proj1 (succeeded_iff
                  (run_of (answered (body (JNumber 11234.5%float)))
                          (answered (body (JNumber 4200.25%float)))
                          (answered (body (JNumber 17000%float))))
                  (typed "" "" "" ""))).
  reflexivity.
Defined.

(** What a call that fails leaves of the inputs of the cards. *)
Lemma loadRates_failed (run : Run) (st : State) :
  succeeded run st = false ->
  amountIDR (loadRates run st) = amountIDR st /\
  showAll (loadRates run st) = showAll st /\
  activeTab (loadRates run st) = activeTab st /\
  forall c, rate_text (loadRates run st) c = rate_text st c.
Proof.
  unfold succeeded, loadRates.
  destruct (try_block run (setFetchError None (setFetching true st)));
    [discriminate|]. intros _. repeat split.
Qed.

(** What a call that succeeds stores for a currency. *)
Lemma loadRates_stored (run : Run) (st : State) (c : Currency) (j : JSON) (x : number) :
  succeeded run st = true ->
  lookup run c = Fulfilled j -> idrPer j = Some x ->
  amountIDR (loadRates run st) = amountIDR st /\
  rate_text (loadRates run st) c = String_ (Math_round x).
Proof.
  unfold succeeded, loadRates. intros Hs Hj Hx.
  destruct (try_block_cases run (setFetchError None (setFetching true st)))
    as [(cur & e & He & E) | (js & Hjs & E)]; rewrite E in *; [discriminate|].
  unfold after_await in *.
  destruct (missing (fun c => idrPer (js c)) SGD
            || missing (fun c => idrPer (js c)) AED
            || missing (fun c => idrPer (js c)) EUR); [discriminate|].
  split; [reflexivity|].
  pose proof (lookup_functional _ _ _ _ (Hjs c) Hj) as Ej.
  destruct c; cbn; unfold rounded; rewrite Ej, Hx; reflexivity.
Qed.

(** X3: whatever the network does, a call of [loadRates] leaves the amount,
    the two switches and the tab as they were and the flag [fetching] off,
    and it ends in one of two ways: the three rate texts are replaced by the
    rounded rates of the three bodies, the time is recorded and no error is
    left; or an error message is left and the three rate texts and the time
    are as before.  No run replaces some of the rates only. *)
Theorem loadRates_all_or_nothing (run : Run) (st : State) :
  amountIDR (loadRates run st) = amountIDR st /\
  showAll (loadRates run st) = showAll st /\
  activeTab (loadRates run st) = activeTab st /\
  autoRates (loadRates run st) = autoRates st /\
  fetching (loadRates run st) = false /\
  ((succeeded run st = true /\
    fetchError (loadRates run st) = None /\
    lastFetchedAt (loadRates run st) = Some (now run) /\
    forall c, exists j x,
      lookup run c = Fulfilled j /\ idrPer j = Some x /\
      rate_text (loadRates run st) c = String_ (Math_round x)) \/
   (succeeded run st = false /\
    (exists msg, fetchError (loadRates run st) = Some msg) /\
    lastFetchedAt (loadRates run st) = lastFetchedAt st /\
    forall c, rate_text (loadRates run st) c = rate_text st c)).
Proof.
  unfold succeeded, loadRates.
  destruct (try_block_cases run (setFetchError None (setFetching true st)))
    as [(cur & e & He & ->) | (js & Hjs & ->)].
  - repeat split. right. repeat split. eexists. reflexivity.
  - unfold after_await.
    destruct (missing (fun c => idrPer (js c)) SGD
              || missing (fun c => idrPer (js c)) AED
              || missing (fun c => idrPer (js c)) EUR) eqn:E.
    + repeat split. right. repeat split. eexists. reflexivity.
    + repeat split. left. repeat split. intros c.
      destruct (missing_false _ c (missing_none _ E c)) as (x & Hx & _).
      exists (js c), x. split; [apply Hjs|]. split; [assumption|].
      destruct c; cbn; unfold rounded; rewrite Hx; reflexivity.
Qed.

(** X4: a call of [loadRates] against the same answers is idempotent: the
    second call leaves the state the first call left. *)
Theorem loadRates_idempotent (run : Run) (st : State) :
  loadRates run (loadRates run st) = loadRates run st.
Proof.
  unfold loadRates.
  destruct (try_block_shape run) as [(e & H) | (map & _ & H)]; rewrite !H;
    destruct st; reflexivity.
Qed.

Lemma results_ext (st st' : State) (k : Country) :
  amountIDR st = amountIDR st' -> (forall c, rate_text st c = rate_text st' c) ->
  results st k = results st' k.
Proof.
  intros Ha Hr. unfold results, check, rates, idr. rewrite Ha, Hr. reflexivity.
Qed.

(** X5: a fetch that fails changes nothing of what is shown for a country:
    the result and the card are those of the state before the call. *)
Theorem failed_fetch_keeps_results (run : Run) (st : State) (k : Country) :
  succeeded run st = false ->
  results (loadRates run st) k = results st k /\
  card (loadRates run st) k = card st k.
Proof.
  intros Hf.
  destruct (loadRates_failed run st Hf) as (Ha & Hs & Ht & Hr).
  assert (E : results (loadRates run st) k = results st k)
    by (apply results_ext; assumption).
  split; [assumption|].
  unfold card, rates, idr. rewrite E, Ha, Hs, Ht, Hr. reflexivity.
Qed.

Lemma failed_fetch_keeps_results_network_error :
  let run := run_of (answered (body (JNumber 11234.5%float)))
                    (failed 3%nat (Some "Failed to fetch"%string))
                    (answered (body (JNumber 17000%float))) in
  let st := typed "25.000.000" "12000" "4200" "17500" in
  succeeded run st = false /\
  results (loadRates run st) SG = results st SG /\
  card (loadRates run st) SG = card st SG.
Proof.
  cbv zeta. split; [reflexivity|].
  apply (failed_fetch_keeps_results
           (run_of (answered (body (JNumber 11234.5%float)))
                   (failed 3%nat (Some "Failed to fetch"%string))
                   (answered (body (JNumber 17000%float))))
           (typed "25.000.000" "12000" "4200" "17500") SG).
  reflexivity.
Defined.

(** ** Signs *)

Lemma negative_cases (x : float) : (x <? 0)%float = true ->
  Prim2SF x = S754_infinity true \/ exists m e, Prim2SF x = S754_finite true m e.
Proof.
  rewrite ltb_spec, Prim2SF_zero. unfold SFltb, SFcompare.
  destruct (Prim2SF x) as [s|s| |s m e]; try discriminate.
  - destruct s; [auto | discriminate].
  - destruct s; [eauto | discriminate].
Qed.

Lemma Prim2SF_zero_falsy (x : float) (s : bool) :
  Prim2SF x = S754_zero s -> truthy x = false.
Proof.
  intros E. apply Prim2SF_eq in E. subst x. destruct s; reflexivity.
Qed.

(** A parsed amount other than zero is a positive number or [+Infinity]. *)
Lemma idr_cases (st : State) : truthy (idr st) = true ->
  Prim2SF (idr st) = S754_infinity false \/
  exists m e, Prim2SF (idr st) = S754_finite false m e.
Proof.
  intros Ht. pose proof (idr_eq st) as E.
  set (n := decimal_value (strip_non_digits (list_ascii_of_string (amountIDR st)))) in E.
  assert (Hn : 0 <= n) by (apply decimal_value_nonneg, all_digits_filter).
  destruct (of_Z_nonneg n Hn) as (HP & Hs & _). rewrite <- E in HP.
  rewrite <- HP in Hs.
  destruct (Prim2SF (idr st)) as [s|s| |s m e] eqn:EP; try discriminate;
    simpl in Hs; injection Hs as ->.
  - rewrite (Prim2SF_zero_falsy _ _ EP) in Ht. discriminate.
  - left. reflexivity.
  - right. eauto.
Qed.

Lemma SFdiv_core_nonneg (m1 m2 : positive) (e1 e2 : Z) :
  0 <= fst (fst (SFdiv_core_binary prec emax (Zpos m1) e1 (Zpos m2) e2)).
Proof.
  unfold SFdiv_core_binary.
  set (s := e1 - e2 - _).
  set (m' := match s with Z0 => Zpos m1 | Zpos _ => Z.shiftl (Zpos m1) s | Zneg _ => 0 end).
  assert (Hm : 0 <= m').
  { unfold m'. destruct s; try lia. apply Z.shiftl_nonneg. lia. }
  pose proof (Z_div_mod m' (Zpos m2) ltac:(lia)) as H.
  destruct (Z.div_eucl m' (Zpos m2)) as [q r]. cbn [fst].
  destruct H as [H1 H2]. nia.
Qed.

(** A positive number divided by a negative one is [NaN], or not positive. *)
Lemma div_positive_negative (x y : float) :
  (Prim2SF x = S754_infinity false \/ exists m e, Prim2SF x = S754_finite false m e) ->
  (y <? 0)%float = true ->
  sign_of (Prim2SF (x / y)%float) = None \/ sign_of (Prim2SF (x / y)%float) = Some true.
Proof.
  intros Hx Hy. apply negative_cases in Hy. rewrite div_spec. unfold SF64div, SFdiv.
  destruct Hx as [-> | (mx & ex & ->)], Hy as [-> | (my & ey & ->)];
    try (left; reflexivity); try (right; reflexivity).
  pose proof (SFdiv_core_nonneg mx my ex ey) as H.
  destruct (SFdiv_core_binary prec emax (Zpos mx) ex (Zpos my) ey) as [[mz ez] lz].
  cbn [fst] in H. right. apply binary_round_aux_sign. assumption.
Qed.

(** A number that is [NaN] or not positive is not above a positive one. *)
Lemma geb_not_positive (v T : float) :
  (0 <? T)%float = true ->
  sign_of (Prim2SF v) = None \/ sign_of (Prim2SF v) = Some true ->
  geb v T = false.
Proof.
  intros HT Hv. apply positive_cases in HT. unfold geb. rewrite leb_spec.
  unfold SFleb, SFcompare.
  destruct (Prim2SF v) as [s|s| |s m e]; destruct Hv as [Hv | Hv]; try discriminate;
    simpl in Hv; try (injection Hv as ->);
    destruct HT as [-> | (mt & et & ->)]; reflexivity.
Qed.

Lemma mul_positive_negative (x y : float) :
  (0 <? x)%float = true -> (y <? 0)%float = true ->
  sign_of (Prim2SF (x * y)%float) = Some true.
Proof.
  intros Hx Hy. apply positive_cases in Hx. apply negative_cases in Hy.
  rewrite mul_spec. unfold SF64mul, SFmul.
  destruct Hx as [-> | (mx & ex & ->)], Hy as [-> | (my & ey & ->)];
    try reflexivity.
  apply binary_round_aux_sign. lia.
Qed.

Lemma of_Z_negative (n : Z) : n < 0 ->
  Prim2SF (of_Z n) = SF_of_Z n /\ sign_of (SF_of_Z n) = Some true.
Proof.
  intros Hn. unfold of_Z, SF_of_Z. destruct n as [|p|p]; try lia.
  cbn [binary_normalize].
  destruct (binary_round_int true p) as (Hv & Hc & _). cbv zeta in Hv, Hc.
  split; [apply Prim2SF_of_valid; assumption|].
  destruct Hc as [-> | (z & _ & _ & m & e & ->)]; reflexivity.
Qed.

Lemma Math_floor_negative (x : float) :
  sign_of (Prim2SF x) = Some true ->
  sign_of (Prim2SF (Math_floor x)) = Some true.
Proof.
  intros Hx. unfold Math_floor.
  destruct (Prim2SF x) as [s|s| |s m e] eqn:E; try (rewrite E; exact Hx).
  simpl in Hx. injection Hx as ->.
  destruct (0 <=? e) eqn:He; [rewrite E; reflexivity|].
  apply Z.leb_gt in He. cbn [cond_Zopp]. cbv zeta.
  change (- Zpos m) with (Zneg m).
  assert (Hn : Z.shiftl (Zneg m) e < 0) by (apply Z.shiftl_neg; lia).
  replace (Z.shiftl (Zneg m) e =? 0) with false by (symmetry; apply Z.eqb_neq; lia).
  destruct (of_Z_negative _ Hn) as (-> & Hs). exact Hs.
Qed.

Lemma Math_max_zero_negative (y : float) :
  sign_of (Prim2SF y) = Some true -> Math_max 0%float y = 0%float.
Proof.
  intros Hy. unfold Math_max. rewrite (signed_not_nan _ _ Hy).
  change (is_nan 0%float) with false. cbn [orb].
  rewrite !ltb_spec, Prim2SF_zero. unfold SFltb, SFcompare.
  destruct (Prim2SF y) as [s|s| |s m e]; try discriminate;
    simpl in Hy; injection Hy as ->; reflexivity.
Qed.

(** X6: with a negative rate in the table and an amount, the check of any
    positive limit computes a result that never asks for a declaration and
    whose limit in home currency is 0. *)
Theorem negative_rate_never_declares (st : State) (c : Currency) (T : number) :
  truthy (idr st) = true -> (rates st c <? 0)%float = true ->
  (0 <? T)%float = true ->
  exists r, check st c T = Some r /\
            needsDecl r = false /\ maxBeforeDeclIDR r = 0%float.
Proof.
  intros HA HR HT.
  assert (Ht : truthy (Number (rate_text st c)) = true).
  { destruct (rates_cases st c) as [[Ht _] | [_ E]]; [assumption|].
    rewrite E in HR. discriminate. }
  rewrite check_eq, Ht, HA. cbn [andb]. eexists. split; [reflexivity|].
  cbn [needsDecl maxBeforeDeclIDR]. split.
  - apply geb_not_positive; [assumption|].
    apply div_positive_negative; [apply idr_cases|]; assumption.
  - apply Math_max_zero_negative, Math_floor_negative, mul_positive_negative; assumption.
Qed.

Lemma negative_rate_never_declares_example :
  let st := typed "9.000.000.000" "-5" "" "" in
  truthy (idr st) = true /\ (rates st SGD <? 0)%float = true /\
  (0 <? 20000)%float = true /\
  exists r, check st SGD 20000%float = Some r /\
            needsDecl r = false /\ maxBeforeDeclIDR r = 0%float.
Proof.
  cbv zeta. split; [vm_compute; reflexivity|]. split; [vm_compute; reflexivity|].
  split; [reflexivity|].
  apply (negative_rate_never_declares (typed "9.000.000.000" "-5" "" "") SGD 20000%float);
    vm_compute; reflexivity.
Defined.

(** ** Rates that round to zero *)

Lemma Prim2SF_half : Prim2SF 0.5%float = S754_finite false 4503599627370496 (-53).
Proof. vm_compute. reflexivity. Qed.

Lemma Math_round_small (x : float) :
  (0 <? x)%float = true -> (x <? 0.5)%float = true -> Math_round x = 0%float.
Proof.
  intros H0 Hh. destruct (positive_cases x H0) as [E | (m & e & E)].
  - rewrite ltb_spec, E in Hh. discriminate.
  - pose proof (Prim2SF_valid x) as Hv. rewrite E in Hv. apply bounded_mantissa in Hv.
    rewrite ltb_spec, E, Prim2SF_half in Hh.
    unfold SFltb, SFcompare in Hh.
    assert (Hm : e <= -53 /\ Zpos m < 2 ^ (- e - 1)).
    { destruct (Z.compare_spec e (-53)) as [Heq | Hlt | Hgt]; try discriminate.
      - split; [lia|]. rewrite Heq.
        replace (2 ^ (- -53 - 1)) with 4503599627370496 by reflexivity.
        destruct (Pos.compare_cont Eq m 4503599627370496) eqn:Ec; try discriminate.
        exact Ec.
      - split; [lia|].
        assert (2 ^ 53 <= 2 ^ (- e - 1)) by (apply Z.pow_le_mono_r; lia). lia. }
    destruct Hm as [He Hm].
    unfold Math_round. rewrite E.
    replace (0 <=? e) with false by (symmetry; apply Z.leb_gt; lia).
    cbn [cond_Zopp]. cbv zeta. rewrite Z.shiftl_div_pow2 by lia.
    assert (HP : 2 ^ (- e) = 2 * 2 ^ (- e - 1)).
    { rewrite <- Z.pow_succ_r by lia. f_equal. lia. }
    rewrite HP.
    assert (Hq : 0 < 2 ^ (- e - 1)) by (apply Z.pow_pos_nonneg; lia).
    rewrite Z.div_small by lia. reflexivity.
Qed.

(** X7: a rate above zero and below one half passes the completeness test of
    the fetch, is stored as the text [0], and is then an unknown rate: every
    check of its currency gives [null]. *)
Theorem small_rate_becomes_unknown
    (run : Run) (st : State) (c : Currency) (j : JSON) (x : number) :
  succeeded run st = true ->
  lookup run c = Fulfilled j -> idrPer j = Some x ->
  (0 <? x)%float = true -> (x <? 0.5)%float = true ->
  rate_text (loadRates run st) c = "0"%string /\
  is_nan (rates (loadRates run st) c) = true /\
  forall T, check (loadRates run st) c T = None.
Proof.
  intros Hs Hj Hx H0 Hh.
  destruct (loadRates_stored run st c j x Hs Hj Hx) as [_ Ht].
  rewrite (Math_round_small x H0 Hh) in Ht.
  assert (Hn : truthy (Number (rate_text (loadRates run st) c)) = false)
    by (rewrite Ht; vm_compute; reflexivity).
  split; [exact Ht|]. split.
  - destruct (rates_cases (loadRates run st) c) as [[Hc _] | [_ ->]]; [|reflexivity].
    rewrite Hc in Hn. discriminate.
  - intros T. apply check_None_iff. right. assumption.
Qed.

Lemma small_rate_becomes_unknown_example :
  let run := run_of (answered (body (JNumber 0.25%float)))
                    (answered (body (JNumber 4200%float)))
                    (answered (body (JNumber 17000%float))) in
  let st := typed "25.000.000" "12000" "" "" in
  succeeded run st = true /\
  rate_text (loadRates run st) SGD = "0"%string /\
  is_nan (rates (loadRates run st) SGD) = true /\
  forall T, check (loadRates run st) SGD T = None.
Proof.
  cbv zeta. split; [reflexivity|].
  apply (small_rate_becomes_unknown
           (run_of (answered (body (JNumber 0.25%float)))
                   (answered (body (JNumber 4200%float)))
                   (answered (body (JNumber 17000%float))))
           (typed "25.000.000" "12000" "" "") SGD
           (body (JNumber 0.25%float)) 0.25%float); reflexivity.
Defined.

(** ** Amounts that count *)

Lemma digit_value_zero (a : ascii) : is_digit a = true ->
  digit_value a = 0 <-> a = "0"%char.
Proof.
  intros H. digit_cases a H; split; intros E; try reflexivity;
    try discriminate E; vm_compute in E; discriminate E.
Qed.

Lemma digit_value_bounds (a : ascii) : is_digit a = true -> 0 <= digit_value a <= 9.
Proof.
  unfold is_digit, digit_value. intros H. apply andb_prop in H. destruct H as [H1 H2].
  apply Z.leb_le in H1, H2. lia.
Qed.

Lemma fold_decimal_zero (l : text) :
  forallb is_digit l = true -> forall acc, 0 <= acc ->
  (fold_left (fun acc c => 10 * acc + digit_value c) l acc = 0 <->
   acc = 0 /\ existsb (fun a => negb (Ascii.eqb a "0")) l = false).
Proof.
  induction l as [|a l IH]; intros H acc Hacc.
  - simpl. tauto.
  - simpl in H. apply andb_prop in H. destruct H as [Ha H].
    pose proof (digit_value_bounds a Ha) as Hb.
    cbn [fold_left existsb]. rewrite (IH H) by lia.
    pose proof (digit_value_zero a Ha) as Hz.
    destruct (Ascii.eqb_spec a "0") as [-> | Hne]; cbn [negb orb].
    + change (digit_value "0") with 0. split; intros [H1 H2]; split; auto; lia.
    + split; intros [H1 H2]; [|discriminate].
      exfalso. apply Hne, Hz. lia.
Qed.

Lemma truthy_of_Z (n : Z) : 0 <= n -> truthy (of_Z n) = (0 <? n).
Proof.
  intros Hn. destruct (Z.ltb_spec 0 n) as [Hpos | Hz].
  - destruct n as [|p|p]; try lia. unfold truthy, is_zero, is_nan, PrimFloat.zero.
    rewrite !FloatAxioms.eqb_spec, Prim2SF_zero.
    destruct (of_Z_nonneg (Zpos p) Hn) as (-> & _).
    unfold SF_of_Z. cbn [binary_normalize].
    destruct (binary_round_int false p) as (_ & [-> | (z & _ & _ & m & e & ->)] & _).
    + reflexivity.
    + unfold SFeqb, SFcompare. rewrite Z.compare_refl, Pos.compare_cont_refl. reflexivity.
  - replace n with 0 by lia. reflexivity.
Qed.

Lemma existsb_filter (f g : ascii -> bool) (l : text) :
  existsb g (filter f l) = existsb (fun a => f a && g a) l.
Proof.
  induction l as [|a l IH]; [reflexivity|]. simpl.
  destruct (f a); simpl; rewrite IH; reflexivity.
Qed.

(** X8: the amount counts as entered exactly when its text has a digit other
    than [0]; so a result is computed for a currency exactly when the amount
    text has such a digit and the rate text is a number other than zero. *)
Theorem amount_entered_iff_nonzero_digit (st : State) :
  truthy (idr st) =
    existsb (fun a => is_digit a && negb (Ascii.eqb a "0"))
            (list_ascii_of_string (amountIDR st)) /\
  forall c T,
    check st c T <> None <->
    existsb (fun a => is_digit a && negb (Ascii.eqb a "0"))
            (list_ascii_of_string (amountIDR st)) = true /\
    truthy (Number (rate_text st c)) = true.
Proof.
  assert (E : truthy (idr st) =
    existsb (fun a => is_digit a && negb (Ascii.eqb a "0"))
            (list_ascii_of_string (amountIDR st))).
  { rewrite idr_eq.
    set (l := strip_non_digits (list_ascii_of_string (amountIDR st))).
    assert (Hl : forallb is_digit l = true) by apply all_digits_filter.
    rewrite truthy_of_Z by (apply decimal_value_nonneg; assumption).
    rewrite <- existsb_filter. fold (strip_non_digits (list_ascii_of_string (amountIDR st))).
    fold l. unfold decimal_value.
    pose proof (fold_decimal_zero l Hl 0 ltac:(lia)) as Hz.
    pose proof (fold_decimal_nonneg l Hl 0 ltac:(lia)) as Hp.
    destruct (existsb (fun a => negb (Ascii.eqb a "0")) l).
    - apply Z.ltb_lt. destruct (Z.eq_dec (fold_left (fun acc c => 10 * acc + digit_value c) l 0) 0) as [E0|]; [|lia].
      apply Hz in E0. destruct E0. discriminate.
    - apply Z.ltb_ge. assert (fold_left (fun acc c => 10 * acc + digit_value c) l 0 = 0) by (apply Hz; auto). lia. }
  split; [exact E|]. intros c T. rewrite <- E.
  pose proof (check_None_iff st c T) as Hn. split.
  - intros H.
    destruct (truthy (idr st)), (truthy (Number (rate_text st c)));
      try (split; reflexivity); exfalso; apply H, Hn; auto.
  - intros [H1 H2] Hc. apply Hn in Hc. rewrite H1, H2 in Hc.
    destruct Hc; discriminate.
Qed.

(** ** From a number to its text and back *)

Lemma fold_decimal_acc (l : text) (acc : Z) :
  fold_left (fun acc c => 10 * acc + digit_value c) l acc =
  acc * 10 ^ Z.of_nat (length l) + decimal_value l.
Proof.
  unfold decimal_value. revert acc. induction l as [|a l IH]; intros acc.
  - simpl. lia.
  - cbn [fold_left length]. rewrite IH, (IH (10 * 0 + digit_value a)).
    rewrite Nat2Z.inj_succ, Z.pow_succ_r by lia. ring.
Qed.

Lemma decimal_value_app (l1 l2 : text) :
  decimal_value (l1 ++ l2) =
  decimal_value l1 * 10 ^ Z.of_nat (length l2) + decimal_value l2.
Proof.
  unfold decimal_value at 1. rewrite fold_left_app.
  fold (decimal_value l1). apply fold_decimal_acc.
Qed.

Lemma decimal_value_cons (a : ascii) (l : text) :
  decimal_value (a :: l) = digit_value a * 10 ^ Z.of_nat (length l) + decimal_value l.
Proof. apply (decimal_value_app [a] l). Qed.

Lemma repeat_zero (n : nat) :
  forallb is_digit (repeat "0"%char n) = true /\ decimal_value (repeat "0"%char n) = 0.
Proof.
  induction n as [|n [IH1 IH2]]; [split; reflexivity|].
  cbn [repeat]. split; [simpl; assumption|].
  rewrite decimal_value_cons, IH2. reflexivity.
Qed.

Lemma zeros_spec (j : Z) :
  forallb is_digit (zeros j) = true /\ decimal_value (zeros j) = 0 /\
  Z.of_nat (length (zeros j)) = Z.max 0 j.
Proof.
  unfold zeros. rewrite repeat_length.
  destruct (repeat_zero (Z.to_nat j)) as [H1 H2]. repeat split; try assumption. lia.
Qed.

Lemma code_digit_char (d : Z) : 0 <= d <= 9 -> code (digit_char d) = 48 + d.
Proof.
  intros H. unfold code, digit_char. rewrite nat_ascii_embedding; lia.
Qed.

Lemma digit_char_spec (d : Z) : 0 <= d <= 9 ->
  is_digit (digit_char d) = true /\ digit_value (digit_char d) = d.
Proof.
  intros H. unfold is_digit, digit_value. rewrite code_digit_char by assumption.
  split; [|lia]. apply andb_true_intro. split; apply Z.leb_le; lia.
Qed.

(** The digits of [n], put before [acc]. *)
Lemma digits_loop_spec (fuel : nat) :
  forall n acc, 0 <= n < 2 ^ Z.of_nat fuel -> forallb is_digit acc = true ->
  forallb is_digit (digits_loop fuel n acc) = true /\
  decimal_value (digits_loop fuel n acc) =
    n * 10 ^ Z.of_nat (length acc) + decimal_value acc.
Proof.
  induction fuel as [|fuel IH]; intros n acc Hn Hacc.
  - simpl in Hn. replace n with 0 by lia. split; [assumption | simpl; lia].
  - cbn [digits_loop].
    assert (Hd : 0 <= n mod 10 <= 9) by (pose proof (Z.mod_pos_bound n 10); lia).
    destruct (digit_char_spec _ Hd) as [Hd1 Hd2].
    pose proof (Z.div_mod n 10 ltac:(lia)) as Hdm.
    destruct (n / 10 =? 0) eqn:E.
    + apply Z.eqb_eq in E. split; [simpl; rewrite Hd1; assumption|].
      rewrite decimal_value_cons, Hd2. nia.
    + apply Z.eqb_neq in E.
      assert (Hq : 0 <= n / 10 < 2 ^ Z.of_nat fuel).
      { split; [apply Z.div_pos; lia|].
        rewrite Nat2Z.inj_succ, Z.pow_succ_r in Hn by lia.
        apply Z.div_lt_upper_bound; lia. }
      destruct (IH (n / 10) (digit_char (n mod 10) :: acc) Hq) as [H1 H2].
      { simpl. rewrite Hd1. assumption. }
      split; [assumption|]. rewrite H2, decimal_value_cons, Hd2.
      cbn [length]. rewrite Nat2Z.inj_succ, Z.pow_succ_r by lia. nia.
Qed.

Lemma digits_loop_length (fuel : nat) :
  forall n acc j, 0 <= n < 10 ^ j -> 1 <= j ->
  1 <= Z.of_nat (length (digits_loop fuel n acc)) - Z.of_nat (length acc) <= j \/ fuel = O.
Proof.
  induction fuel as [|fuel IH]; intros n acc j Hn Hj; [right; reflexivity|].
  left. cbn [digits_loop].
  destruct (n / 10 =? 0) eqn:E.
  - cbn [length]. lia.
  - apply Z.eqb_neq in E.
    assert (Hj2 : 2 <= j).
    { destruct (Z.eq_dec j 1) as [-> |]; [|lia]. exfalso. apply E.
      apply Z.div_small. lia. }
    assert (Hq : 0 <= n / 10 < 10 ^ (j - 1)).
    { split; [apply Z.div_pos; lia|].
      apply Z.div_lt_upper_bound; [lia|].
      rewrite <- Z.pow_succ_r by lia. replace (Z.succ (j - 1)) with j by lia. lia. }
    destruct (IH (n / 10) (digit_char (n mod 10) :: acc) (j - 1) Hq ltac:(lia)) as [H | ->].
    + cbn [length] in H. lia.
    + cbn [digits_loop length]. lia.
Qed.

(** The decimal digits of a non-negative integer write that integer. *)
Lemma decimal_digits_spec (n : Z) : 0 <= n ->
  forallb is_digit (decimal_digits n) = true /\
  decimal_value (decimal_digits n) = n.
Proof.
  intros Hn. unfold decimal_digits.
  destruct (digits_loop_spec (S (Z.to_nat (Z.log2 n))) n []) as [H1 H2].
  - split; [assumption|]. rewrite Nat2Z.inj_succ, Z2Nat.id by apply Z.log2_nonneg.
    destruct (Z.eq_dec n 0) as [-> |]; [reflexivity|].
    apply Z.log2_spec. lia.
  - reflexivity.
  - split; [assumption|]. rewrite H2. cbn [length Z.of_nat].
    change (decimal_value []) with 0. rewrite Z.pow_0_r. lia.
Qed.

Lemma decimal_digits_length (n j : Z) : 0 <= n < 10 ^ j -> 1 <= j ->
  1 <= Z.of_nat (length (decimal_digits n)) <= j.
Proof.
  intros Hn Hj. unfold decimal_digits.
  destruct (digits_loop_length (S (Z.to_nat (Z.log2 n))) n [] j Hn Hj) as [H | H];
    [change (Z.of_nat (length (@nil ascii))) with 0 in H; lia | discriminate].
Qed.

(** An integer below [2^53] is rounded to itself, with a mantissa of 53 bits. *)
Lemma binary_round_small (s : bool) (p : positive) : Zpos p < 2 ^ 53 ->
  exists mz ez,
    binary_round prec emax s p 0 = S754_finite s mz ez /\
    Zpos mz = Zpos p * 2 ^ (- ez) /\ ez <= 0 /\ Zdigits2 (Zpos mz) = 53.
Proof.
  intros Hp. unfold binary_round.
  destruct (shl_align_int p) as (mz & ez & -> & Hez & Hmz & Hdz).
  set (d := Zdigits2 (Zpos p)) in *.
  assert (Hd : 0 < d <= 53).
  { split; [unfold d; simpl; lia|].
    destruct (digits_bounds (Zpos p)) as [Hlo _]; [lia|]. fold d in Hlo.
    destruct (Z_le_gt_dec d 53) as [|Hgt]; [assumption|].
    assert (2 ^ 53 <= 2 ^ (d - 1)) by (apply Z.pow_le_mono_r; lia). lia. }
  exists mz, ez. rewrite binary_round_aux_exact by lia.
  repeat split; try assumption; lia.
Qed.

Lemma pow2_range_unique (z a b : Z) :
  0 < z -> 0 <= a -> 0 <= b ->
  2 ^ 52 <= z * 2 ^ a < 2 ^ 53 -> 2 ^ 52 <= z * 2 ^ b < 2 ^ 53 -> a = b.
Proof.
  assert (H : forall a b, 0 <= a -> a < b -> 0 < z ->
            2 ^ 52 <= z * 2 ^ a -> z * 2 ^ b < 2 ^ 53 -> False).
  { intros a' b' Ha Hab Hz H1 H2.
    replace b' with (a' + (b' - a')) in H2 by lia.
    rewrite Z.pow_add_r in H2 by lia.
    assert (2 ^ 1 <= 2 ^ (b' - a')) by (apply Z.pow_le_mono_r; lia).
    assert (0 < 2 ^ a') by (apply Z.pow_pos_nonneg; lia).
    change (2 ^ 1) with 2 in *. change (2 ^ 53) with (2 * 2 ^ 52) in H2. nia. }
  intros Hz Ha Hb [H1 H2] [H3 H4].
  destruct (Z.lt_trichotomy a b) as [Hlt | [Heq | Hgt]]; [|assumption|].
  - exfalso. apply (H a b); assumption.
  - exfalso. apply (H b a); assumption.
Qed.

(** A valid number whose value is an integer from 1 to [2^53 - 1] is the
    rounding of that integer. *)
Lemma SF_of_Z_canonical (m : positive) (e z : Z) :
  bounded prec emax m e = true ->
  SF_to_Z (S754_finite false m e) = Some z -> 1 <= z < 2 ^ 53 ->
  SF_of_Z z = S754_finite false m e.
Proof.
  intros Hb Hz Hr.
  assert (Hcan : fexp prec emax (Zdigits2 (Zpos m) + e) = e).
  { unfold bounded, canonical_mantissa in Hb. apply andb_prop in Hb.
    destruct Hb as [Hb _]. apply Z.eqb_eq in Hb. exact Hb. }
  pose proof (bounded_mantissa m e Hb) as Hm53.
  destruct (digits_bounds (Zpos m)) as [Hlo Hhi]; [lia|].
  set (dm := Zdigits2 (Zpos m)) in *.
  assert (Hdm0 : 0 < dm) by (unfold dm; simpl; lia).
  (* the value *)
  assert (Hval : e <= 0 /\ Zpos m = z * 2 ^ (- e) /\ dm = 53).
  { unfold SF_to_Z, cond_Zopp in Hz.
    unfold fexp, SpecFloat.emin, prec, emax in Hcan.
    destruct (0 <=? e) eqn:He.
    - apply Z.leb_le in He.
      assert (Hz' : Zpos m * 2 ^ e = z) by congruence. clear Hz.
      assert (dm = 53) by lia.
      assert (e = 0).
      { destruct (Z.eq_dec e 0) as [|Hne]; [assumption|]. exfalso.
        assert (2 ^ 1 <= 2 ^ e) by (apply Z.pow_le_mono_r; lia).
        change (2 ^ 1) with 2 in *.
        replace (dm - 1) with 52 in Hlo by lia.
        assert (Zpos m * 2 <= Zpos m * 2 ^ e) by (apply Z.mul_le_mono_nonneg_l; lia).
        lia. }
      subst e. simpl Z.opp. rewrite Z.pow_0_r in *. repeat split; lia.
    - apply Z.leb_gt in He.
      destruct (Zpos m mod 2 ^ (- e) =? 0) eqn:Hmod; [|discriminate].
      apply Z.eqb_eq in Hmod.
      assert (Hz' : Zpos m / 2 ^ (- e) = z) by congruence. clear Hz. rename Hz' into Hz.
      assert (Hp : 0 < 2 ^ (- e)) by (apply Z.pow_pos_nonneg; lia).
      pose proof (Z.div_mod (Zpos m) (2 ^ (- e)) ltac:(lia)) as Hdm.
      rewrite Hmod, Hz in Hdm.
      assert (Hmz : Zpos m = z * 2 ^ (- e)) by lia.
      split; [lia|]. split; [assumption|].
      destruct (Z.eq_dec dm 53) as [|Hne]; [assumption|]. exfalso.
      assert (e = -1074) by lia. subst e.
      assert (2 ^ 53 <= 2 ^ (- -1074)) by (apply Z.pow_le_mono_r; lia).
      nia. }
  destruct Hval as (He & Hmz & Hdm).
  replace (dm - 1) with 52 in Hlo by lia. rewrite Hdm in Hhi.
  destruct z as [|pz|pz]; try lia.
  unfold SF_of_Z. cbn [binary_normalize].
  destruct (binary_round_small false pz ltac:(lia)) as (mz & ez & -> & Hz1 & Hz2 & Hz3).
  destruct (digits_bounds (Zpos mz)) as [Hlo' Hhi']; [lia|].
  rewrite Hz3 in Hlo', Hhi'. change (53 - 1) with 52 in Hlo'.
  assert (Hee : - e = - ez).
  { apply (pow2_range_unique (Zpos pz));
      first [lia | rewrite <- Hmz; lia | rewrite <- Hz1; lia]. }
  assert (e = ez) by lia. subst ez.
  assert (Zpos m = Zpos mz) by lia.
  congruence.
Qed.

(** A candidate that is kept is not negative and rounds to the number. *)
Lemma candidate_sound (s : bool) (m : positive) (e p q n k c : Z) :
  0 <= p -> 0 < q ->
  candidate (S754_finite s m e) p q n k = Some c ->
  0 <= c /\ exists s', SF_of_decimal c (n - k) = S754_finite s' m e.
Proof.
  intros Hp Hq. unfold candidate.
  set (ab := if n <=? k then (p * 10 ^ (k - n), q) else (p, q * 10 ^ (n - k))).
  assert (Hab : 0 <= fst ab /\ 0 < snd ab).
  { unfold ab. destruct (n <=? k) eqn:E; cbn [fst snd].
    - split; [|assumption]. apply Z.mul_nonneg_nonneg; [assumption|].
      apply Z.pow_nonneg. lia.
    - apply Z.leb_gt in E. split; [assumption|].
      apply Z.mul_pos_pos; [assumption|]. apply Z.pow_pos_nonneg; lia. }
  destruct ab as [a b]. cbn [fst snd] in Hab. destruct Hab as [Ha Hb].
  pose proof (Z_div_mod a b ltac:(lia)) as Hdm.
  destruct (Z.div_eucl a b) as [s0 r]. destruct Hdm as [Hdm Hr].
  assert (Hs0 : 0 <= s0) by nia.
  assert (Hok : forall c0,
            match SF_of_decimal c0 (n - k) with
            | S754_finite _ m' e' => (m =? m')%positive && (e =? e')
            | _ => false
            end = true ->
            exists s', SF_of_decimal c0 (n - k) = S754_finite s' m e).
  { intros c0. destruct (SF_of_decimal c0 (n - k)) as [| | |s' m' e'];
      try discriminate.
    intros H. apply andb_prop in H. destruct H as [H1 H2].
    apply Pos.eqb_eq in H1. apply Z.eqb_eq in H2. subst. eauto. }
  pose proof (Hok s0) as Hok0. pose proof (Hok (s0 + 1)) as Hok1.
  destruct (match SF_of_decimal s0 (n - k) with
            | S754_finite _ m' e' => (m =? m')%positive && (e =? e')
            | _ => false
            end);
    destruct (match SF_of_decimal (s0 + 1) (n - k) with
              | S754_finite _ m' e' => (m =? m')%positive && (e =? e')
              | _ => false
              end);
    intros H; try discriminate; injection H as <-.
  - match goal with |- context [if ?t then s0 else s0 + 1] => destruct t end;
      (split; [lia | auto]).
  - split; [lia | auto].
  - split; [lia | auto].
Qed.

(** The search stops at the first length that has a candidate. *)
Lemma shortest_found (f : spec_float) (p q n : Z) (fuel : nat) :
  forall (k : Z) (j : nat), (j < fuel)%nat ->
  candidate f p q n (k + Z.of_nat j) <> None ->
  exists c k', shortest fuel f p q n k = (c, k') /\
               k <= k' <= k + Z.of_nat j /\ candidate f p q n k' = Some c.
Proof.
  induction fuel as [|fuel IH]; intros k j Hj Hc; [lia|].
  cbn [shortest]. destruct (candidate f p q n k) as [c|] eqn:E.
  - exists c, k. repeat split; try lia. assumption.
  - destruct j as [|j].
    + exfalso. apply Hc. rewrite Z.add_0_r. assumption.
    + destruct (IH (k + 1) j ltac:(lia)) as (c & k' & H1 & H2 & H3).
      { replace (k + 1 + Z.of_nat j) with (k + Z.of_nat (S j)) by lia. assumption. }
      exists c, k'. repeat split; try assumption; lia.
Qed.

(** The text of an integer from 1 to [2^53 - 1]: digits, then zeros, which
    together write an integer that rounds to the number. *)
Lemma positive_to_text_integer (m : positive) (e z : Z) :
  bounded prec emax m e = true ->
  SF_to_Z (S754_finite false m e) = Some z -> 1 <= z < 2 ^ 53 ->
  exists s j,
    positive_to_text m e = decimal_digits s ++ zeros j /\
    0 <= s /\ 0 <= j /\ SF_of_Z (s * 10 ^ j) = S754_finite false m e.
Proof.
  intros Hb Hz Hr.
  pose proof (SF_of_Z_canonical m e z Hb Hz Hr) as Hcan.
  (* the ratio *)
  assert (Hpq : exists p q,
            (if 0 <=? e then (Zpos m * 2 ^ e, 1) else (Zpos m, 2 ^ (- e))) = (p, q) /\
            0 < q /\ p = z * q).
  { unfold SF_to_Z, cond_Zopp in Hz. destruct (0 <=? e) eqn:He.
    - exists (Zpos m * 2 ^ e), 1. split; [reflexivity|]. split; [lia|].
      assert (Zpos m * 2 ^ e = z) by congruence. lia.
    - apply Z.leb_gt in He. exists (Zpos m), (2 ^ (- e)).
      assert (Hp : 0 < 2 ^ (- e)) by (apply Z.pow_pos_nonneg; lia).
      split; [reflexivity|]. split; [assumption|].
      destruct (Zpos m mod 2 ^ (- e) =? 0) eqn:Hmod; [|discriminate].
      apply Z.eqb_eq in Hmod.
      assert (Hq : Zpos m / 2 ^ (- e) = z) by congruence.
      pose proof (Z.div_mod (Zpos m) (2 ^ (- e)) ltac:(lia)). lia. }
  destruct Hpq as (p & q & Epq & Hq & Hp).
  unfold positive_to_text. rewrite Epq.
  (* the decimal exponent *)
  set (L := Z.of_nat (length (decimal_digits z))).
  assert (HL : 1 <= L <= 16).
  { apply decimal_digits_length; [|lia].
    assert (2 ^ 53 < 10 ^ 16) by reflexivity. lia. }
  assert (En : decimal_exponent p q = L).
  { unfold decimal_exponent.
    replace (q <=? p) with true by (symmetry; apply Z.leb_le; nia).
    subst p. rewrite Z.div_mul by lia. reflexivity. }
  rewrite En.
  (* the search *)
  assert (Hc : candidate (S754_finite false m e) p q L (1 + Z.of_nat (Z.to_nat (L - 1)))
               <> None).
  { replace (1 + Z.of_nat (Z.to_nat (L - 1))) with L by lia.
    unfold candidate. rewrite Z.leb_refl, Z.sub_diag, Z.pow_0_r, Z.mul_1_r.
    pose proof (Z_div_mod p q ltac:(lia)) as Hdm.
    destruct (Z.div_eucl p q) as [s0 r]. destruct Hdm as [Hdm Hrr].
    assert (s0 = z) by nia. subst s0.
    assert (Hz0 : SF_of_decimal z 0 = S754_finite false m e).
    { unfold SF_of_decimal.
      replace (z =? 0) with false by (symmetry; apply Z.eqb_neq; lia).
      simpl (0 <=? 0). cbv iota. rewrite Z.pow_0_r, Z.mul_1_r. assumption. }
    rewrite Hz0, Pos.eqb_refl, Z.eqb_refl. cbn [andb].
    destruct (match SF_of_decimal (z + 1) 0 with
              | S754_finite _ m' e' => (m =? m')%positive && (e =? e')
              | _ => false
              end); discriminate. }
  destruct (shortest_found _ p q L 17 1 (Z.to_nat (L - 1)) ltac:(lia) Hc)
    as (c & k & -> & Hk & Hcand).
  destruct (candidate_sound false m e p q L k c ltac:(nia) Hq Hcand)
    as (Hc0 & s' & Hdec).
  assert (Hk' : 1 <= k <= L) by lia.
  (* the candidate as an integer *)
  assert (Hval : SF_of_Z (c * 10 ^ (L - k)) = S754_finite false m e).
  { unfold SF_of_decimal in Hdec. destruct (c =? 0); [discriminate|].
    replace (0 <=? L - k) with true in Hdec by (symmetry; apply Z.leb_le; lia).
    assert (Hn : 0 <= c * 10 ^ (L - k))
      by (apply Z.mul_nonneg_nonneg; [assumption | apply Z.pow_nonneg; lia]).
    destruct (of_Z_nonneg _ Hn) as (_ & Hs & _). rewrite Hdec in Hs |- *.
    simpl in Hs. injection Hs as ->. reflexivity. }
  destruct (c =? 10 ^ k) eqn:Eadj.
  - apply Z.eqb_eq in Eadj.
    replace ((k <=? L + 1) && (L + 1 <=? 21)) with true
      by (symmetry; apply andb_true_intro; split; apply Z.leb_le; lia).
    exists (10 ^ (k - 1)), (L + 1 - k). split; [reflexivity|].
    split; [apply Z.pow_nonneg; lia|]. split; [lia|].
    rewrite <- Hval, Eadj, <- !Z.pow_add_r by lia. do 2 f_equal. lia.
  - replace ((k <=? L) && (L <=? 21)) with true
      by (symmetry; apply andb_true_intro; split; apply Z.leb_le; lia).
    exists c, (L - k). split; [reflexivity|]. split; [assumption|]. split; [lia|].
    assumption.
Qed.

(** [Number(String(y))] is [y] for an integer [y] from 1 to [2^53 - 1]. *)
Lemma Number_String_integer (y : number) (z : Z) :
  (0 <? y)%float = true -> to_Z y = Some z -> 1 <= z < 2 ^ 53 ->
  Number (String_ y) = y.
Proof.
  intros Hpos Hz Hr. unfold to_Z in Hz.
  destruct (positive_cases y Hpos) as [E | (m & e & E)];
    [rewrite E in Hz; discriminate|].
  pose proof (Prim2SF_valid y) as Hv. rewrite E in Hv, Hz.
  destruct (positive_to_text_integer m e z Hv Hz Hr) as (s & j & Et & Hs & Hj & Hval).
  unfold Number, String_. rewrite list_ascii_of_string_of_list_ascii, E.
  cbn [app]. rewrite Et.
  destruct (decimal_digits_spec s Hs) as [Hd1 Hd2].
  destruct (zeros_spec j) as (Hz1 & Hz2 & Hz3).
  rewrite StringToNumber_digits
    by (rewrite forallb_app, Hd1, Hz1; reflexivity).
  rewrite decimal_value_app, Hd2, Hz2, Hz3, Z.max_r, Z.add_0_r by lia.
  unfold of_Z. rewrite Hval, <- E. apply SF2Prim_Prim2SF.
Qed.

(** ** Fetched rates in the check *)

Lemma bounded_normal (m : positive) (e : Z) :
  bounded prec emax m e = true -> -1074 < e -> 2 ^ 52 <= Zpos m < 2 ^ 53.
Proof.
  intros Hb He. pose proof (bounded_mantissa m e Hb) as Hm. split; [|assumption].
  unfold bounded, canonical_mantissa in Hb. apply andb_prop in Hb.
  destruct Hb as [Hb _]. apply Z.eqb_eq in Hb.
  change (Zpos (digits2_pos m)) with (Zdigits2 (Zpos m)) in Hb.
  unfold fexp, SpecFloat.emin, prec, emax in Hb.
  destruct (digits_bounds (Zpos m)) as [Hlo _]; [lia|].
  replace (Zdigits2 (Zpos m) - 1) with 52 in Hlo by lia. assumption.
Qed.

Lemma Prim2SF_two_53 :
  Prim2SF 9007199254740992%float = S754_finite false 4503599627370496 1.
Proof. vm_compute. reflexivity. Qed.

(** [Math.round] of a rate from one half to below [2^53]: a positive integer
    below [2^53]. *)
Lemma Math_round_range (x : float) :
  (0.5 <=? x)%float = true -> (x <? 9007199254740992)%float = true ->
  (0 <? Math_round x)%float = true /\
  exists z, to_Z (Math_round x) = Some z /\ 1 <= z < 2 ^ 53.
Proof.
  intros Hlo Hhi. rewrite leb_spec, Prim2SF_half in Hlo.
  rewrite ltb_spec, Prim2SF_two_53 in Hhi.
  destruct (Prim2SF x) as [s|s| |s m e] eqn:E;
    try discriminate; try (destruct s; discriminate).
  destruct s; [discriminate|].
  pose proof (Prim2SF_valid x) as Hv. rewrite E in Hv.
  assert (H0 : (0 <? x)%float = true) by (rewrite ltb_spec, Prim2SF_zero, E; reflexivity).
  assert (Hinf : (x <? infinity)%float = true) by (rewrite ltb_spec, E; reflexivity).
  unfold SFleb, SFcompare in Hlo. unfold SFltb, SFcompare in Hhi.
  assert (He : -53 <= e <= 1).
  { destruct (Z.compare_spec (-53) e); destruct (Z.compare_spec e 1);
      try discriminate; lia. }
  destruct (bounded_normal m e Hv ltac:(lia)) as [Hm1 Hm2].
  assert (He1 : e <= 0).
  { destruct (Z.compare_spec e 1) as [Heq | |]; try discriminate; try lia.
    exfalso. destruct (Pos.compare_cont Eq m 4503599627370496) eqn:Ec; try discriminate.
    assert (Zpos m < 4503599627370496) by exact Ec.
    change (2 ^ 52) with 4503599627370496 in Hm1. lia. }
  destruct (Math_round_positive x H0 Hinf) as (z & Hz & Hz0 & Hn).
  assert (Hr : 1 <= z < 2 ^ 53).
  { rewrite E in Hn. unfold nearest_integer, cond_Zopp in Hn.
    destruct (0 <=? e) eqn:Hle.
    - apply Z.leb_le in Hle. replace e with 0 in Hn by lia.
      rewrite Z.pow_0_r in Hn. lia.
    - apply Z.leb_gt in Hle.
      assert (Hk1 : 2 ^ 1 <= 2 ^ (- e)) by (apply Z.pow_le_mono_r; lia).
      assert (Hk2 : 2 ^ (- e) <= 2 ^ 53) by (apply Z.pow_le_mono_r; lia).
      change (2 ^ 1) with 2 in Hk1.
      change (2 ^ 53) with 9007199254740992 in *.
      change (2 ^ 52) with 4503599627370496 in *.
      split; nia. }
  split; [|exists z; auto].
  unfold to_Z in Hz. rewrite ltb_spec, Prim2SF_zero.
  destruct (Prim2SF (Math_round x)) as [s|s| |s m' e']; try discriminate.
  - simpl in Hz. injection Hz as <-. lia.
  - destruct s; [|reflexivity]. exfalso.
    unfold SF_to_Z, cond_Zopp in Hz.
    destruct (0 <=? e') eqn:Hle.
    + assert (Hz' : - Zpos m' * 2 ^ e' = z) by congruence.
      assert (0 <= 2 ^ e') by (apply Z.pow_nonneg; lia). nia.
    + destruct (Zpos m' mod 2 ^ (- e') =? 0); [|discriminate].
      assert (Hz' : - Zpos m' / 2 ^ (- e') = z) by congruence.
      apply Z.leb_gt in Hle.
      assert (0 < 2 ^ (- e')) by (apply Z.pow_pos_nonneg; lia).
      assert (- Zpos m' / 2 ^ (- e') < 0) by (apply Z.div_lt_upper_bound; lia).
      lia.
Qed.

(** X9: after a fetch that succeeds, a rate that the service gave from one
    half to below [2^53] is read back from its text as that rate rounded: the
    check then converts with the rounded rate. *)
Theorem fetched_rate_is_rounded_rate
    (run : Run) (st : State) (c : Currency) (j : JSON) (x : number) :
  succeeded run st = true ->
  lookup run c = Fulfilled j -> idrPer j = Some x ->
  (0.5 <=? x)%float = true -> (x <? 9007199254740992)%float = true ->
  rates (loadRates run st) c = Math_round x /\
  idr (loadRates run st) = idr st /\
  forall T, truthy (idr st) = true ->
    check (loadRates run st) c T =
      Some {| converted := (idr st / Math_round x)%float;
              needsDecl := geb (idr st / Math_round x)%float T;
              maxBeforeDeclIDR :=
                Math_max 0%float (Math_floor (T * Math_round x)%float) |}.
Proof.
  intros Hs Hj Hx Hlo Hhi.
  destruct (loadRates_stored run st c j x Hs Hj Hx) as [Ha Ht].
  destruct (Math_round_range x Hlo Hhi) as (Hpos & z & Hz & Hzr).
  assert (HN : Number (rate_text (loadRates run st) c) = Math_round x).
  { rewrite Ht. apply (Number_String_integer _ z); assumption. }
  assert (HR : rates (loadRates run st) c = Math_round x).
  { unfold rates, or_else. rewrite HN.
    destruct (positive_truthy _ Hpos) as [-> _]. reflexivity. }
  assert (HI : idr (loadRates run st) = idr st) by (unfold idr; rewrite Ha; reflexivity).
  split; [assumption|]. split; [assumption|].
  intros T HA. rewrite check_eq, HN, HI, HR, HA.
  destruct (positive_truthy _ Hpos) as [-> _]. reflexivity.
Qed.

Lemma fetched_rate_is_rounded_rate_example :
  let run := run_of (answered (body (JNumber 11234.5%float)))
                    (answered (body (JNumber 4200.25%float)))
                    (answered (body (JNumber 17000%float))) in
  let st := typed "240.000.000" "" "" "" in
  rates (loadRates run st) SGD = 11235%float /\
  rates (loadRates run st) AED = 4200%float.
Proof.
  cbv zeta. split.
  - apply (proj1 (fetched_rate_is_rounded_rate
             (run_of (answered (body (JNumber 11234.5%float)))
                     (answered (body (JNumber 4200.25%float)))
                     (answered (body (JNumber 17000%float))))
             (typed "240.000.000" "" "" "") SGD
             (body (JNumber 11234.5%float)) 11234.5%float
             eq_refl eq_refl eq_refl eq_refl eq_refl)).
  - apply (proj1 (fetched_rate_is_rounded_rate
             (run_of (answered (body (JNumber 11234.5%float)))
                     (answered (body (JNumber 4200.25%float)))
                     (answered (body (JNumber 17000%float))))
             (typed "240.000.000" "" "" "") AED
             (body (JNumber 4200.25%float)) 4200.25%float
             eq_refl eq_refl eq_refl eq_refl eq_refl)).
Defined.

(** ** Blank rate fields *)

Lemma skip_white_space (l : text) (n : nat) :
  Forall (fun a => In [a] white_space) l -> (length l <= n)%nat ->
  skip_tokens n white_space l = [].
Proof.
  revert n. induction l as [|a l IH]; intros n Hl Hn.
  - destruct n; reflexivity.
  - destruct n as [|n]; [simpl in Hn; lia|].
    inversion Hl as [|a' l' Ha Hl']; subst.
    assert (Hs : strip_any white_space (a :: l) = Some l).
    { unfold white_space in Ha. cbn [map In] in Ha.
      repeat (destruct Ha as [Ha | Ha];
              [first [discriminate Ha | injection Ha as <-; reflexivity]|]).
      contradiction. }
    cbn [skip_tokens]. rewrite Hs. apply IH; [assumption | simpl in Hn; lia].
Qed.

Lemma Number_blank (s : string) :
  Forall (fun a => In [a] white_space) (list_ascii_of_string s) ->
  Number s = 0%float.
Proof.
  intros H. unfold Number, StringToNumber, trim. cbv zeta.
  rewrite (skip_white_space _ _ H (Nat.le_refl _)). reflexivity.
Qed.

(** X10: a rate field that is empty or holds nothing but single white space
    characters (tab, line feed, vertical tab, form feed, carriage return,
    space, as bytes) reads as the number zero, so the rate is [NaN] and the
    check of that currency gives [null] whatever the amount. *)
Theorem blank_rate_is_unknown (st : State) (c : Currency) :
  Forall (fun a => In [a] white_space) (list_ascii_of_string (rate_text st c)) ->
  Number (rate_text st c) = 0%float /\
  is_nan (rates st c) = true /\
  forall T, check st c T = None.
Proof.
  intros H. pose proof (Number_blank _ H) as HN.
  split; [assumption|]. split.
  - unfold rates, or_else. rewrite HN. reflexivity.
  - intros T. apply check_None_iff. right. rewrite HN. reflexivity.
Qed.

Lemma blank_rate_is_unknown_spaces :
  let st := typed "150.000.000" "   " "" "16500" in
  Number (rate_text st SGD) = 0%float /\
  is_nan (rates st SGD) = true /\
  forall T, check st SGD T = None.
Proof.
  cbv zeta. apply (blank_rate_is_unknown (typed "150.000.000" "   " "" "16500") SGD).
  repeat constructor; vm_compute; tauto.
Defined.

(** ** An infinite rate *)

(** X11: a rate of [+Infinity] (the text [Infinity], or a literal too large
    for a number) passes the guard of the check: with an amount that is
    finite and not zero, the converted amount is [0], no declaration is
    needed for a positive limit, and the limit in home currency is
    [+Infinity]. *)
Theorem infinite_rate_never_declares (st : State) (c : Currency) (T : number) :
  truthy (idr st) = true -> (idr st <? infinity)%float = true ->
  rates st c = infinity -> (0 <? T)%float = true ->
  check st c T =
    Some {| converted := 0%float; needsDecl := false;
            maxBeforeDeclIDR := infinity |}.
Proof.
  intros HA HF HR HT.
  assert (Hn : truthy (Number (rate_text st c)) = true).
  { destruct (rates_cases st c) as [[Ht _] | [_ E]]; [assumption|].
    rewrite E in HR. discriminate. }
  rewrite check_eq, Hn, HA, HR. cbn [andb].
  assert (Hc : (idr st / infinity)%float = 0%float).
  { rewrite (Prim2SF_eq (idr st / infinity)%float (S754_zero false)); [reflexivity|].
    rewrite div_spec. unfold SF64div, SFdiv.
    rewrite ltb_spec in HF.
    destruct (idr_cases st HA) as [E | (m & e & E)]; rewrite E in *.
    - discriminate.
    - reflexivity. }
  assert (Hm : (T * infinity)%float = infinity).
  { rewrite (Prim2SF_eq (T * infinity)%float (S754_infinity false)); [reflexivity|].
    rewrite mul_spec. unfold SF64mul, SFmul.
    destruct (positive_cases T HT) as [-> | (m & e & ->)]; reflexivity. }
  rewrite Hc, Hm. f_equal. f_equal.
  unfold geb. rewrite leb_spec, Prim2SF_zero.
  destruct (positive_cases T HT) as [-> | (m & e & ->)]; reflexivity.
Qed.

Lemma infinite_rate_never_declares_example :
  check (typed "9.000.000.000" "Infinity" "" "") SGD 20000%float =
    Some {| converted := 0%float; needsDecl := false;
            maxBeforeDeclIDR := infinity |}.
Proof.
  apply (infinite_rate_never_declares (typed "9.000.000.000" "Infinity" "" "") SGD
           20000%float); vm_compute; reflexivity.
Defined.

(** ** Whole numbers: exact products and quotients *)

Lemma mod_mul_split (m a b : Z) : 0 < a -> 0 < b -> m mod (a * b) = 0 ->
  m mod a = 0 /\ (m / a) mod b = 0.
Proof.
  intros Ha Hb H. apply Z.mod_divide in H; [|lia]. destruct H as [q ->].
  replace (q * (a * b)) with (q * b * a) by ring.
  rewrite Z.mod_mul, Z.div_mul by lia. split; [reflexivity|].
  apply Z.mod_mul. lia.
Qed.

Lemma shr_1_exact (m : Z) : 0 <= m -> m mod 2 = 0 ->
  shr_1 {| shr_m := m; shr_r := false; shr_s := false |} =
  {| shr_m := m / 2; shr_r := false; shr_s := false |}.
Proof.
  intros Hm H. destruct m as [|[p|p|]|p]; try lia.
  - reflexivity.
  - exfalso. rewrite Pos2Z.inj_xI in H.
    replace (2 * Zpos p + 1) with (1 + Zpos p * 2) in H by ring.
    rewrite Z.mod_add in H by lia. discriminate.
  - cbn [shr_1 orb]. f_equal. rewrite Pos2Z.inj_xO.
    rewrite Z.mul_comm, Z.div_mul by lia. reflexivity.
  - discriminate.
Qed.

Lemma iter_shr_1_exact (k : positive) :
  forall m, 0 <= m -> m mod 2 ^ Zpos k = 0 ->
    iter_pos shr_1 k {| shr_m := m; shr_r := false; shr_s := false |} =
    {| shr_m := m / 2 ^ Zpos k; shr_r := false; shr_s := false |}.
Proof.
  assert (Hpos : forall j : positive, 0 < 2 ^ Zpos j)
    by (intros j; apply Z.pow_pos_nonneg; lia).
  induction k as [k IH|k IH|]; intros m Hm H; cbn [iter_pos].
  - rewrite pow2_double_succ in *. pose proof (Hpos k) as Hk.
    destruct (mod_mul_split m 2 (2 ^ Zpos k * 2 ^ Zpos k)) as [H1 H2]; [lia|nia|assumption|].
    destruct (mod_mul_split (m / 2) (2 ^ Zpos k) (2 ^ Zpos k)) as [H3 H4];
      [lia|lia|assumption|].
    rewrite shr_1_exact by assumption.
    rewrite IH; [|apply Z.div_pos; lia|assumption].
    rewrite IH; [|apply Z.div_pos; [apply Z.div_pos|]; lia|assumption].
    rewrite !Z.div_div by nia. reflexivity.
  - rewrite pow2_double in *. pose proof (Hpos k) as Hk.
    destruct (mod_mul_split m (2 ^ Zpos k) (2 ^ Zpos k)) as [H3 H4];
      [lia|lia|assumption|].
    rewrite IH; [|assumption|assumption].
    rewrite IH; [|apply Z.div_pos; lia|assumption].
    rewrite !Z.div_div by nia. reflexivity.
  - apply shr_1_exact; assumption.
Qed.

Lemma shr_exact (m e n : Z) : 0 <= m -> 0 <= n -> m mod 2 ^ n = 0 ->
  shr (shr_record_of_loc m loc_Exact) e n =
  ({| shr_m := m / 2 ^ n; shr_r := false; shr_s := false |}, e + n).
Proof.
  intros Hm Hn H. destruct n as [|k|k]; try lia.
  - cbn [shr shr_record_of_loc]. rewrite Z.pow_0_r, Z.div_1_r, Z.add_0_r. reflexivity.
  - cbn [shr shr_record_of_loc]. rewrite iter_shr_1_exact by assumption. reflexivity.
Qed.

Lemma digits_mul_pow2 (z k : Z) : 0 < z -> 0 <= k ->
  Zdigits2 (z * 2 ^ k) = Zdigits2 z + k.
Proof.
  intros Hz Hk.
  assert (0 < 2 ^ k) by (apply Z.pow_pos_nonneg; lia).
  rewrite !Zdigits2_log2 by nia.
  rewrite Z.log2_mul_pow2 by lia. lia.
Qed.

(** An exact mantissa that stands for a whole number below [2^53] is
    rounded to that number. *)
Lemma binary_round_aux_integer (mx : positive) (ex z : Z) :
  Zpos mx = z * 2 ^ (- ex) -> -1074 <= ex <= 0 -> 1 <= z < 2 ^ 53 ->
  53 <= Zdigits2 (Zpos mx) ->
  binary_round_aux prec emax false (Zpos mx) ex loc_Exact = SF_of_Z z.
Proof.
  intros Hmx Hex Hz Hd.
  set (d := Zdigits2 (Zpos mx)) in *.
  assert (Hdz : d = Zdigits2 z - ex).
  { unfold d. rewrite Hmx, digits_mul_pow2 by lia. lia. }
  assert (Hz53 : 0 < Zdigits2 z <= 53).
  { rewrite Zdigits2_log2 by lia.
    pose proof (Z.log2_nonneg z).
    assert (Z.log2 z < 53) by (apply Z.log2_lt_pow2; lia). lia. }
  set (n := d - 53).
  assert (Hn : 0 <= n <= - ex) by lia.
  assert (Hp : 0 < 2 ^ n) by (apply Z.pow_pos_nonneg; lia).
  assert (Hsplit : Zpos mx = z * 2 ^ (- ex - n) * 2 ^ n).
  { rewrite Hmx, <- Z.mul_assoc, <- Z.pow_add_r by lia. f_equal. f_equal. lia. }
  assert (Hmod : Zpos mx mod 2 ^ n = 0) by (rewrite Hsplit; apply Z.mod_mul; lia).
  assert (Hdiv : Zpos mx / 2 ^ n = z * 2 ^ (- ex - n))
    by (rewrite Hsplit; apply Z.div_mul; lia).
  assert (Hq : 0 < 2 ^ (- ex - n)) by (apply Z.pow_pos_nonneg; lia).
  destruct (Zpos mx / 2 ^ n) as [|m'|m'] eqn:Em; try nia.
  assert (Hd' : Zdigits2 (Zpos m') = 53).
  { rewrite Hdiv, digits_mul_pow2 by lia. lia. }
  assert (Hr : binary_round_aux prec emax false (Zpos mx) ex loc_Exact =
               S754_finite false m' (ex + n)).
  { unfold binary_round_aux, shr_fexp. fold d.
    rewrite fexp_normal by lia.
    replace (d + ex - 53 - ex) with n by lia.
    rewrite shr_exact by (assumption || lia).
    rewrite Em.
    cbn [shr_m shr_r shr_s loc_of_shr_record round_nearest_even].
    rewrite Hd', fexp_normal by lia.
    replace (53 + (ex + n) - 53 - (ex + n)) with 0 by lia.
    cbn [shr shr_record_of_loc shr_m].
    replace (ex + n <=? emax - prec) with true; [reflexivity|].
    symmetry. apply Z.leb_le. unfold emax, prec. lia. }
  rewrite Hr. symmetry. apply SF_of_Z_canonical; [apply bounded_53; lia| |assumption].
  unfold SF_to_Z, cond_Zopp.
  destruct (0 <=? ex + n) eqn:E0.
  - apply Z.leb_le in E0. replace (ex + n) with 0 by lia.
    replace (- ex - n) with 0 in Hdiv by lia.
    rewrite Z.pow_0_r in *. f_equal. lia.
  - replace (- (ex + n)) with (- ex - n) by lia.
    rewrite Hdiv, Z.mod_mul, Z.div_mul by lia. reflexivity.
Qed.

(** The representation of a number that is a whole number from [1] to below
    [2^53]. *)
Lemma integer_number (x : number) (z : Z) :
  to_Z x = Some z -> 1 <= z < 2 ^ 53 ->
  x = of_Z z /\
  exists m e, Prim2SF x = S754_finite false m e /\
              Zpos m = z * 2 ^ (- e) /\ -53 < e <= 0 /\ Zdigits2 (Zpos m) = 53.
Proof.
  intros Hz Hr. unfold to_Z in Hz.
  pose proof (Prim2SF_valid x) as Hv.
  destruct (Prim2SF x) as [s|s| |s m e] eqn:E; try discriminate.
  - simpl in Hz. injection Hz as <-. lia.
  - assert (s = false).
    { destruct s; [|reflexivity]. exfalso.
      unfold SF_to_Z, cond_Zopp in Hz.
      destruct (0 <=? e) eqn:Hle.
      + assert (Hz' : - Zpos m * 2 ^ e = z) by congruence.
        assert (0 <= 2 ^ e) by (apply Z.pow_nonneg; lia). nia.
      + destruct (Zpos m mod 2 ^ (- e) =? 0); [|discriminate].
        assert (Hz' : - Zpos m / 2 ^ (- e) = z) by congruence.
        apply Z.leb_gt in Hle.
        assert (0 < 2 ^ (- e)) by (apply Z.pow_pos_nonneg; lia).
        assert (- Zpos m / 2 ^ (- e) < 0) by (apply Z.div_lt_upper_bound; lia).
        lia. }
    subst s. simpl in Hv.
    pose proof (SF_of_Z_canonical m e z Hv Hz Hr) as Hc.
    split.
    + unfold of_Z. rewrite Hc. apply Prim2SF_eq. assumption.
    + destruct z as [|pz|pz]; try lia.
      unfold SF_of_Z in Hc. cbn [binary_normalize] in Hc.
      destruct (binary_round_small false pz ltac:(lia)) as (mz & ez & Hb & H1 & H2 & H3).
      rewrite Hb in Hc. injection Hc as <- <-. exists mz, ez.
      split; [reflexivity|]. split; [assumption|]. split; [|assumption].
      split; [|assumption].
      destruct (Z_lt_le_dec (-53) ez) as [|Hle]; [assumption|]. exfalso.
      destruct (digits_bounds (Zpos mz)) as [_ Hu]; [lia|]. rewrite H3 in Hu.
      assert (2 ^ 53 <= 2 ^ (- ez)) by (apply Z.pow_le_mono_r; lia). nia.
Qed.

(** The product of two whole numbers, when it is below [2^53], is exact. *)
Lemma mul_integers (x y : number) (a b : Z) :
  to_Z x = Some a -> to_Z y = Some b -> 1 <= a -> 1 <= b -> a * b < 2 ^ 53 ->
  (x * y)%float = of_Z (a * b).
Proof.
  intros Hx Hy Ha Hb Hab.
  destruct (integer_number x a Hx ltac:(nia)) as (_ & m1 & e1 & E1 & M1 & L1 & D1).
  destruct (integer_number y b Hy ltac:(nia)) as (_ & m2 & e2 & E2 & M2 & L2 & D2).
  apply Prim2SF_eq. rewrite mul_spec, E1, E2. unfold SF64mul, SFmul. cbn [xorb].
  assert (H1 : 0 < 2 ^ (- e1)) by (apply Z.pow_pos_nonneg; lia).
  assert (H2 : 0 < 2 ^ (- e2)) by (apply Z.pow_pos_nonneg; lia).
  apply binary_round_aux_integer; try lia.
  - rewrite Pos2Z.inj_mul, M1, M2.
    replace (- (e1 + e2)) with (- e1 + - e2) by lia.
    rewrite Z.pow_add_r by lia. ring.
  - rewrite Pos2Z.inj_mul.
    destruct (digits_bounds (Zpos m1)) as [Hl1 _]; [lia|].
    destruct (digits_bounds (Zpos m2)) as [Hl2 _]; [lia|].
    rewrite D1 in Hl1. rewrite D2 in Hl2. change (2 ^ (53 - 1)) with (2 ^ 52) in *.
    rewrite Zdigits2_log2 by lia.
    assert (52 <= Z.log2 (Zpos m1 * Zpos m2)); [|lia].
    apply Z.log2_le_pow2; [lia|].
    change (2 ^ 52) with 4503599627370496 in *. nia.
Qed.

(** The quotient of a multiple by its factor, both whole numbers below
    [2^53], is exact. *)
Lemma div_integers (x y : number) (t r : Z) :
  to_Z x = Some (t * r) -> to_Z y = Some r -> 1 <= t -> 1 <= r -> t * r < 2 ^ 53 ->
  (x / y)%float = of_Z t.
Proof.
  intros Hx Hy Ht Hr Htr.
  destruct (integer_number x (t * r) Hx ltac:(nia)) as (_ & m1 & e1 & E1 & M1 & L1 & D1).
  destruct (integer_number y r Hy ltac:(nia)) as (_ & m2 & e2 & E2 & M2 & L2 & D2).
  destruct (digits_bounds (Zpos m1)) as [Hl1 Hu1]; [lia|].
  destruct (digits_bounds (Zpos m2)) as [Hl2 Hu2]; [lia|].
  rewrite D1 in Hl1, Hu1. rewrite D2 in Hl2, Hu2.
  change (2 ^ (53 - 1)) with (2 ^ 52) in *.
  assert (H1 : 0 < 2 ^ (- e1)) by (apply Z.pow_pos_nonneg; lia).
  assert (H2 : 0 < 2 ^ (- e2)) by (apply Z.pow_pos_nonneg; lia).
  apply Prim2SF_eq. rewrite div_spec, E1, E2. unfold SF64div, SFdiv. cbn [xorb].
  unfold SFdiv_core_binary. rewrite D1, D2.
  replace (53 + e1 - (53 + e2)) with (e1 - e2) by lia.
  assert (Hf : fexp prec emax (e1 - e2) = e1 - e2 - 53)
    by (unfold fexp, SpecFloat.emin, prec, emax; lia).
  rewrite Hf. rewrite Z.min_l by lia.
  replace (e1 - e2 - (e1 - e2 - 53)) with 53 by lia.
  cbv iota.
  set (k := 53 - e1 + e2).
  assert (Hk : 0 < k) by (unfold k; lia).
  assert (Hpk : 0 < 2 ^ k) by (apply Z.pow_pos_nonneg; lia).
  assert (Hq : Z.shiftl (Zpos m1) 53 = t * 2 ^ k * Zpos m2).
  { rewrite Z.shiftl_mul_pow2, M1, M2 by lia.
    replace k with (53 + - e1 - - e2) by (unfold k; lia).
    assert (E : 2 ^ (- e1) * 2 ^ 53 = 2 ^ (53 + - e1 - - e2) * 2 ^ (- e2)).
    { rewrite <- !Z.pow_add_r by lia. f_equal. lia. }
    transitivity (t * r * (2 ^ (- e1) * 2 ^ 53)); [ring|]. rewrite E. ring. }
  pose proof (Z_div_mod (Z.shiftl (Zpos m1) 53) (Zpos m2) ltac:(lia)) as Hdm.
  destruct (Z.div_eucl (Z.shiftl (Zpos m1) 53) (Zpos m2)) as [q rem].
  destruct Hdm as [Hdm Hrem]. rewrite Hq in Hdm.
  assert (Hqv : q = t * 2 ^ k /\ rem = 0).
  { assert (rem = (t * 2 ^ k - q) * Zpos m2) by lia.
    assert (t * 2 ^ k - q = 0) by nia. split; lia. }
  destruct Hqv as [-> ->].
  assert (Hloc : new_location (Zpos m2) 0 = loc_Exact).
  { unfold new_location, new_location_even, new_location_odd.
    destruct (Z.even (Zpos m2)); reflexivity. }
  rewrite Hloc.
  destruct (t * 2 ^ k) as [|pq|pq] eqn:Epq; try nia.
  apply binary_round_aux_integer; try lia.
  - rewrite <- Epq. f_equal. f_equal. unfold k. lia.
  - rewrite <- Epq, digits_mul_pow2 by lia.
    pose proof (digits_mul_pow2 (t * r) (- e1) ltac:(nia) ltac:(lia)) as G1.
    pose proof (digits_mul_pow2 r (- e2) ltac:(lia) ltac:(lia)) as G2.
    rewrite <- M1, D1 in G1. rewrite <- M2, D2 in G2.
    rewrite Zdigits2_log2 in G1 by nia. rewrite Zdigits2_log2 in G2 by lia.
    rewrite Zdigits2_log2 by lia.
    pose proof (Z.log2_mul_above t r ltac:(lia) ltac:(lia)).
    unfold k. lia.
Qed.

Lemma integer_positive (x : number) (z : Z) :
  to_Z x = Some z -> 1 <= z < 2 ^ 53 ->
  (0 <? x)%float = true /\ sign_of (Prim2SF x) = Some false.
Proof.
  intros Hz Hr.
  destruct (integer_number x z Hz Hr) as (_ & m & e & E & _).
  rewrite ltb_spec, Prim2SF_zero, E. split; reflexivity.
Qed.

(** Whole numbers compare as numbers the way they compare as integers. *)
Lemma leb_integers (x y : number) (a b : Z) :
  to_Z x = Some a -> to_Z y = Some b -> 1 <= a < 2 ^ 53 -> 1 <= b < 2 ^ 53 ->
  (x <=? y)%float = (a <=? b).
Proof.
  intros Hx Hy Ha Hb.
  destruct (integer_number x a Hx Ha) as (_ & m1 & e1 & E1 & M1 & L1 & D1).
  destruct (integer_number y b Hy Hb) as (_ & m2 & e2 & E2 & M2 & L2 & D2).
  destruct (digits_bounds (Zpos m1)) as [Hl1 Hu1]; [lia|].
  destruct (digits_bounds (Zpos m2)) as [Hl2 Hu2]; [lia|].
  rewrite D1 in Hl1, Hu1. rewrite D2 in Hl2, Hu2.
  change (2 ^ (53 - 1)) with 4503599627370496 in *.
  change (2 ^ 53) with 9007199254740992 in *.
  assert (H1 : 0 < 2 ^ (- e1)) by (apply Z.pow_pos_nonneg; lia).
  assert (H2 : 0 < 2 ^ (- e2)) by (apply Z.pow_pos_nonneg; lia).
  rewrite leb_spec, E1, E2. unfold SFleb, SFcompare.
  destruct (Z.compare_spec e1 e2) as [Heq | Hlt | Hgt].
  - subst e2. rewrite Pos.compare_cont_spec. cbn [Pos.switch_Eq].
    change (Pos.compare m1 m2) with (Z.compare (Zpos m1) (Zpos m2)).
    destruct (Z.compare_spec (Zpos m1) (Zpos m2)) as [Hc | Hc | Hc];
      symmetry; [apply Z.leb_le | apply Z.leb_le | apply Z.leb_gt]; nia.
  - symmetry. apply Z.leb_le.
    assert (E : 2 ^ (- e1) = 2 ^ (e2 - e1) * 2 ^ (- e2)).
    { rewrite <- Z.pow_add_r by lia. f_equal. lia. }
    assert (2 ^ 1 <= 2 ^ (e2 - e1)) by (apply Z.pow_le_mono_r; lia).
    change (2 ^ 1) with 2 in *. nia.
  - symmetry. apply Z.leb_gt.
    assert (E : 2 ^ (- e2) = 2 ^ (e1 - e2) * 2 ^ (- e1)).
    { rewrite <- Z.pow_add_r by lia. f_equal. lia. }
    assert (2 ^ 1 <= 2 ^ (e1 - e2)) by (apply Z.pow_le_mono_r; lia).
    change (2 ^ 1) with 2 in *. nia.
Qed.

Lemma to_Z_of_Z (z : Z) : 0 <= z < 2 ^ 53 -> to_Z (of_Z z) = Some z.
Proof.
  intros Hz. unfold to_Z. destruct (of_Z_nonneg z ltac:(lia)) as (-> & _ & _ & H).
  apply H. lia.
Qed.

(** [Math.floor] of a whole number is that number. *)
Lemma Math_floor_integer (x : number) (z : Z) :
  to_Z x = Some z -> 1 <= z < 2 ^ 53 -> Math_floor x = x.
Proof.
  intros Hz Hr.
  destruct (integer_number x z Hz Hr) as (Hx & m & e & E & Hm & He & _).
  unfold Math_floor. rewrite E. destruct (0 <=? e) eqn:H0; [reflexivity|].
  apply Z.leb_gt in H0. cbv zeta. cbn [cond_Zopp].
  assert (Hp : 0 < 2 ^ (- e)) by (apply Z.pow_pos_nonneg; lia).
  assert (Hs : Z.shiftl (Zpos m) e = z).
  { rewrite <- (Z.opp_involutive e) at 1. rewrite Z.shiftl_opp_r.
    rewrite Z.shiftr_div_pow2 by lia. rewrite Hm. apply Z.div_mul. lia. }
  rewrite Hs. destruct (z =? 0) eqn:Ez; [apply Z.eqb_eq in Ez; lia|].
  symmetry. assumption.
Qed.

(** X12: with whole numbers all through (a rate [r], a limit [t], and an
    amount that is the multiple [s * r] of the rate, the products below
    [2^53]), the check is exact: the converted amount is [s], the limit in
    home currency is [t * r], and a declaration is needed exactly when
    [t <= s], which is when the amount is not below the limit in home
    currency that is shown.  An amount equal to that limit needs a
    declaration. *)
Theorem check_exact_on_whole_multiples
    (st : State) (c : Currency) (T : number) (t r s : Z) :
  to_Z T = Some t -> to_Z (rates st c) = Some r ->
  to_Z (idr st) = Some (s * r) ->
  1 <= t -> 1 <= r -> 1 <= s -> t * r < 2 ^ 53 -> s * r < 2 ^ 53 ->
  exists res,
    check st c T = Some res /\
    converted res = of_Z s /\
    maxBeforeDeclIDR res = of_Z (t * r) /\
    needsDecl res = (t <=? s) /\
    needsDecl res = geb (idr st) (maxBeforeDeclIDR res).
Proof.
  intros HT HR HA Ht Hr Hs Htr Hsr.
  assert (Ht' : 1 <= t < 2 ^ 53) by nia.
  assert (Hr' : 1 <= r < 2 ^ 53) by nia.
  assert (Hs' : 1 <= s < 2 ^ 53) by nia.
  assert (Ha' : 1 <= s * r < 2 ^ 53) by nia.
  assert (Hp' : 1 <= t * r < 2 ^ 53) by nia.
  destruct (integer_positive _ _ HA Ha') as (PA & _).
  assert (Hn : truthy (Number (rate_text st c)) = true).
  { destruct (rates_cases st c) as [[H _] | [_ E]]; [assumption|].
    rewrite E in HR. discriminate. }
  rewrite check_eq, Hn. destruct (positive_truthy _ PA) as [-> _]. cbn [andb].
  eexists. split; [reflexivity|]. cbn [converted maxBeforeDeclIDR needsDecl].
  rewrite (div_integers _ _ s r HA HR Hs Hr Hsr).
  rewrite (mul_integers _ _ t r HT HR Ht Hr Htr).
  assert (HP : to_Z (of_Z (t * r)) = Some (t * r)) by (apply to_Z_of_Z; lia).
  rewrite (Math_floor_integer _ _ HP Hp').
  destruct (integer_positive _ _ HP Hp') as (_ & SP).
  destruct (Math_max_zero _ SP) as [-> _].
  split; [reflexivity|]. split; [reflexivity|].
  unfold geb.
  rewrite (leb_integers T (of_Z s) t s HT (to_Z_of_Z s ltac:(lia)) Ht' Hs').
  rewrite (leb_integers (of_Z (t * r)) (idr st) (t * r) (s * r) HP HA Hp' Ha').
  split; [reflexivity|].
  destruct (Z.leb_spec t s), (Z.leb_spec (t * r) (s * r)); try reflexivity; nia.
Qed.

Lemma check_exact_on_whole_multiples_at_the_limit :
  let st := typed "Rp 224.700.000" "11235" "" "" in
  exists res,
    results st SG = Some res /\
    converted res = 20000%float /\
    maxBeforeDeclIDR res = 224700000%float /\
    needsDecl res = true /\
    needsDecl res = geb (idr st) (maxBeforeDeclIDR res).
Proof.
  cbv zeta.
  apply (check_exact_on_whole_multiples
           (typed "Rp 224.700.000" "11235" "" "") SGD 20000%float 20000 11235 20000);
    try lia; vm_compute; reflexivity.
Defined.
